(** * URL shortener service: the in-memory mapping store of [main.py]

    A shallow embedding of the Flask handlers of [main.py] and of the two
    module-level dictionaries they share, followed by the properties of the
    store operations (Insert, Resolve, Stats, List, Sweep).

    Conventions of the embedding.
    - A Python [str] is a [string]: a sequence of code points below 256.
    - A [datetime] is an integer count of microseconds ([Z]); the range
      check of the real type is not modelled.
    - The JSON number [ttl_hours] is a rational ([Q]).
    - [datetime.utcnow()] and [generate_short_code()] read the outside
      world; their results are supplied by the caller in an [env]. A draw
      of the generator is any string.
    - A handler is a function of the store that returns an outcome and the
      store it leaves behind, also when it raises.
    - The root health check, which reads neither dictionary, is left
      out. *)

From Stdlib Require Import ZArith QArith String Ascii List Lia.
From stdpp Require Import base option list gmap strings fin_maps.

Local Open Scope string_scope.
Local Open Scope Z_scope.

(** ** Python values held in the statistics dictionary *)

(** The values the fields ['created_at'] and ['expires_at'] can hold.
    [PIsoStr t] is the [str] that [datetime.isoformat()] yields for the
    datetime [t]; [PDatetime t] is a [datetime] object. *)
Inductive pyval : Type :=
  | PNone
  | PIsoStr (t : Z)
  | PDatetime (t : Z).

#[global] Instance pyval_eq_dec : EqDecision pyval.
Proof. solve_decision. Defined.

(** Exceptions a handler can raise. *)
Inductive exn : Type :=
  | TypeError
  | ValueError
  | KeyError.

#[global] Instance exn_eq_dec : EqDecision exn.
Proof. solve_decision. Defined.

(** Outcome of running Python code: a value, an exception, or [Spin] when
    the retry loop of [shorten_url] used up every draw it was given. *)
Inductive pyresult (A : Type) : Type :=
  | Ok (a : A)
  | Raise (e : exn)
  | Spin.

Arguments Ok {A} a.
Arguments Raise {A} e.
Arguments Spin {A}.

(** Python truthiness: [None] is false, a non-empty [str] (an ISO
    timestamp is never empty) and any [datetime] are true. *)
Definition truthy (v : pyval) : bool :=
  match v with
  | PNone => false
  | PIsoStr _ | PDatetime _ => true
  end.

(** [v < now] where [now] is a [datetime]: only two datetimes compare;
    a [str] or [None] on the left raises [TypeError]. *)
Definition lt_datetime (v : pyval) (now : Z) : pyresult bool :=
  match v with
  | PDatetime t => Ok (t <? now)
  | PIsoStr _ | PNone => Raise TypeError
  end.

(** [datetime.fromisoformat(v)]: the argument must be a [str]. *)
Definition fromisoformat (v : pyval) : pyresult pyval :=
  match v with
  | PIsoStr t => Ok (PDatetime t)
  | PDatetime _ | PNone => Raise TypeError
  end.

(** The instant a stored expiry denotes, whatever its representation. *)
Definition expiry_time (v : pyval) : option Z :=
  match v with
  | PNone => None
  | PIsoStr t | PDatetime t => Some t
  end.

(** ** Strings: [str.strip()] *)

Module Str.

(** [str.isspace] on one code point below 256. *)
Definition is_space (a : ascii) : bool :=
  let n := nat_of_ascii a in
  ((9 <=? n) && (n <=? 13) || (28 <=? n) && (n <=? 32)
   || (n =? 133) || (n =? 160))%nat.

Fixpoint lstrip (s : string) : string :=
  match s with
  | EmptyString => EmptyString
  | String a rest => if is_space a then lstrip rest else s
  end.

Fixpoint rstrip (s : string) : string :=
  match s with
  | EmptyString => EmptyString
  | String a rest =>
      match rstrip rest with
      | EmptyString => if is_space a then EmptyString else String a EmptyString
      | kept => String a kept
      end
  end.

Definition strip (s : string) : string := rstrip (lstrip s).

(** Every character of [s] is white space. *)
Fixpoint all_space (s : string) : bool :=
  match s with
  | EmptyString => true
  | String a rest => is_space a && all_space rest
  end.

Definition first_char (s : string) : option ascii :=
  match s with
  | EmptyString => None
  | String a _ => Some a
  end.


End Str.

(** ** [urllib.parse.urlparse]: scheme and network location

    [urlparse] is a function of Python's library, not of this program.
    Only the two components [is_valid_url] reads are computed, the way
    [urlsplit] computes them: leading C0 controls and spaces are dropped,
    tab, CR and LF are removed, a scheme is split off at the first colon
    when the text before it is a well-formed scheme name, and the network
    location is what follows a leading double slash up to the next slash,
    question mark or hash. A location with an unmatched square bracket
    raises [ValueError]; the finer checks of bracketed and of non-ASCII
    hosts are not modelled. *)
Module Url.

Record parse_result : Type := ParseResult {
  scheme : string;
  netloc : string
}.

Definition code (a : ascii) : nat := nat_of_ascii a.

Definition is_c0_or_space (a : ascii) : bool := (code a <=? 32)%nat.

Definition is_unsafe (a : ascii) : bool :=
  ((code a =? 9) || (code a =? 10) || (code a =? 13))%nat.

Definition is_upper (a : ascii) : bool := ((65 <=? code a) && (code a <=? 90))%nat.
Definition is_lower (a : ascii) : bool := ((97 <=? code a) && (code a <=? 122))%nat.
Definition is_digit (a : ascii) : bool := ((48 <=? code a) && (code a <=? 57))%nat.
Definition is_alpha (a : ascii) : bool := is_upper a || is_lower a.

(** [scheme_chars]: letters, digits, plus, minus and dot. *)
Definition is_scheme_char (a : ascii) : bool :=
  (is_alpha a || is_digit a
   || (code a =? 43) || (code a =? 45) || (code a =? 46))%nat.

Definition to_lower (a : ascii) : ascii :=
  if is_upper a then ascii_of_nat (code a + 32) else a.

Fixpoint lstrip_c0 (s : string) : string :=
  match s with
  | EmptyString => EmptyString
  | String a rest => if is_c0_or_space a then lstrip_c0 rest else s
  end.

Fixpoint remove_unsafe (s : string) : string :=
  match s with
  | EmptyString => EmptyString
  | String a rest =>
      if is_unsafe a then remove_unsafe rest else String a (remove_unsafe rest)
  end.

Fixpoint lower (s : string) : string :=
  match s with
  | EmptyString => EmptyString
  | String a rest => String (to_lower a) (lower rest)
  end.

Fixpoint all_scheme_chars (s : string) : bool :=
  match s with
  | EmptyString => true
  | String a rest => is_scheme_char a && all_scheme_chars rest
  end.

Fixpoint contains (c : ascii) (s : string) : bool :=
  match s with
  | EmptyString => false
  | String a rest => if Ascii.eqb a c then true else contains c rest
  end.

(** [url.find(':')]: the text before the first colon and the text after
    it, when there is a colon. *)
Fixpoint split_colon (s : string) : option (string * string) :=
  match s with
  | EmptyString => None
  | String a rest =>
      if Ascii.eqb a ":"%char then Some (EmptyString, rest)
      else match split_colon rest with
           | Some (before, after) => Some (String a before, after)
           | None => None
           end
  end.

(** The scheme and the remainder of the URL. *)
Definition split_scheme (url : string) : string * string :=
  match split_colon url with
  | Some (String a before, after) =>
      if is_alpha a && all_scheme_chars (String a before)
      then (lower (String a before), after)
      else (EmptyString, url)
  | _ => (EmptyString, url)
  end.

Definition is_netloc_end (a : ascii) : bool :=
  (Ascii.eqb a "/" || Ascii.eqb a "?" || Ascii.eqb a "#")%char.

(** [_splitnetloc(url, 2)]: the text up to the first delimiter. *)
Fixpoint take_netloc (s : string) : string :=
  match s with
  | EmptyString => EmptyString
  | String a rest =>
      if is_netloc_end a then EmptyString else String a (take_netloc rest)
  end.

Definition urlparse (url : string) : pyresult parse_result :=
  let '(sch, rest) := split_scheme (remove_unsafe (lstrip_c0 url)) in
  match rest with
  | String "/" (String "/" after) =>
      let loc := take_netloc after in
      if xorb (contains "[" loc) (contains "]" loc)
      then Raise ValueError
      else Ok (ParseResult sch loc)
  | _ => Ok (ParseResult sch EmptyString)
  end.

End Url.

(** Truthiness of a [str]: non-empty. *)
Definition nonempty (s : string) : bool :=
  match s with
  | EmptyString => false
  | String _ _ => true
  end.

(** [is_valid_url]: the scheme is http or https and the network location
    is not empty; a [ValueError] of the parser counts as invalid. *)
Definition is_valid_url (url : string) : bool :=
  match Url.urlparse url with
  | Ok result =>
      (String.eqb (Url.scheme result) "http" || String.eqb (Url.scheme result) "https")
      && nonempty (Url.netloc result)
  | Raise ValueError => false
  | _ => false
  end.

(** ** The store: the two module-level dictionaries *)

(** One value of [url_stats]: the dictionary with the keys ['clicks'],
    ['created_at'] and ['expires_at']. *)
Record stats : Type := Stats {
  clicks : Z;
  created_at : pyval;
  expires_at : pyval
}.

#[global] Instance stats_eq_dec : EqDecision stats.
Proof. solve_decision. Defined.

Record store : Type := Store {
  url_mappings : gmap string string;
  url_stats : gmap string stats
}.

(** The factory of the [defaultdict]. *)
Definition default_stats : stats := Stats 0 PNone PNone.

Definition empty_store : store := Store ∅ ∅.

(** ** Handlers as store transformers *)

Definition M (A : Type) : Type := store -> pyresult A * store.

Definition ret {A} (a : A) : M A := fun s => (Ok a, s).

Definition bind {A B} (m : M A) (k : A -> M B) : M B :=
  fun s =>
    match m s with
    | (Ok a, s') => k a s'
    | (Raise e, s') => (Raise e, s')
    | (Spin, s') => (Spin, s')
    end.

Definition raise {A} (e : exn) : M A := fun s => (Raise e, s).

Definition lift {A} (r : pyresult A) : M A := fun s => (r, s).

Definition get : M store := fun s => (Ok s, s).

Definition put (s : store) : M unit := fun _ => (Ok tt, s).

Notation "x <- m ;; k" := (bind m (fun x => k))
  (at level 90, m at next level, right associativity).
Notation "m ;;; k" := (bind m (fun _ => k))
  (at level 90, right associativity).

Fixpoint mapM {A B} (f : A -> M B) (l : list A) : M (list B) :=
  match l with
  | [] => ret []
  | x :: rest => y <- f x ;; ys <- mapM f rest ;; ret (y :: ys)
  end.

(** ** Time *)

(** Nearest integer, ties to the even neighbour. *)
Definition round_half_even (q : Q) : Z :=
  let d := Z.pos (Qden q) in
  let f := Qnum q / d in
  let r := Qnum q mod d in
  if 2 * r <? d then f
  else if d <? 2 * r then f + 1
  else if Z.even f then f else f + 1.

(** [timedelta(hours=h)] in microseconds, computed exactly. *)
Definition timedelta_hours (h : Q) : Z :=
  round_half_even (h * (3600000000 # 1))%Q.

(** [t.isoformat()]. *)
Definition isoformat (t : Z) : pyval := PIsoStr t.

(** ** Requests and responses *)

(** What a request reads from outside the store: the clock seen by the
    sweep, the clock seen by the handler, the successive results of
    [generate_short_code()] and [request.host_url]. *)
Record env : Type := Env {
  clock_sweep : Z;
  clock : Z;
  draws : list string;
  host_url : string
}.

(** The JSON body of POST /api/shorten. A body that is absent or is the
    empty object has no [url]. *)
Record shorten_body : Type := ShortenBody {
  body_url : option string;
  body_ttl_hours : option Q
}.

Inductive payload : Type :=
  | PError (error : string)
  | PShortened (short_code short_url original_url : string) (expires : pyval)
  | PStats (short_code original_url : string) (n_clicks : Z)
           (created expires : pyval) (is_active : bool)
  | PList (count : Z) (urls : list (string * string * Z))
  | PHealth (active_urls total_clicks : Z).

Inductive response : Type :=
  | Json (body : payload) (status : Z)
  | Redirect (location : string) (status : Z).

Definition status_of (r : response) : Z :=
  match r with
  | Json _ st | Redirect _ st => st
  end.

Inductive request : Type :=
  | PostShorten (body : shorten_body)
  | GetCode (short_code : string)
  | GetStats (short_code : string)
  | GetUrls
  | GetHealth.

(** ** Sweep: [cleanup_expired_urls] *)

(** The filter of the comprehension:
    [stats['expires_at'] and stats['expires_at'] < now]. *)
Definition is_expired (now : Z) (st : stats) : pyresult bool :=
  if truthy (expires_at st) then lt_datetime (expires_at st) now else Ok false.

(** The comprehension over [url_stats.items()]. *)
Fixpoint expired_codes (now : Z) (items : list (string * stats))
  : pyresult (list string) :=
  match items with
  | [] => Ok []
  | (code, st) :: rest =>
      match is_expired now st with
      | Ok b =>
          match expired_codes now rest with
          | Ok codes => Ok (if b then code :: codes else codes)
          | failure => failure
          end
      | Raise e => Raise e
      | Spin => Spin
      end
  end.

(** [url_mappings.pop(code, None); url_stats.pop(code, None)]. *)
Definition pop_code (s : store) (code : string) : store :=
  Store (delete code (url_mappings s)) (delete code (url_stats s)).

Definition cleanup_expired_urls (now : Z) : M unit :=
  s <- get ;;
  codes <- lift (expired_codes now (map_to_list (url_stats s))) ;;
  put (foldl pop_code s codes).

Definition before_request (e : env) : M unit :=
  cleanup_expired_urls (clock_sweep e).

(** ** Access to the dictionaries *)

(** [url_stats[code]]: a [defaultdict] stores and returns the default
    entry when the key is missing. *)
Definition stats_getitem (code : string) : M stats :=
  s <- get ;;
  match url_stats s !! code with
  | Some st => ret st
  | None =>
      put (Store (url_mappings s) (<[code := default_stats]> (url_stats s))) ;;;
      ret default_stats
  end.

(** [url_mappings[code]]: a plain [dict] raises [KeyError]. *)
Definition mappings_getitem (code : string) : M string :=
  s <- get ;;
  match url_mappings s !! code with
  | Some url => ret url
  | None => raise KeyError
  end.

(** [url_stats[code]['clicks'] += 1]. *)
Definition incr_clicks (code : string) : M unit :=
  st <- stats_getitem code ;;
  s <- get ;;
  put (Store (url_mappings s)
         (<[code := Stats (clicks st + 1) (created_at st) (expires_at st)]>
            (url_stats s))).

(** ** Insert: [shorten_url] *)

(** The retry loop: the first draw that is not a key of [url_mappings]. *)
Fixpoint unique_code (candidates : list string) (m : gmap string string)
  : pyresult string :=
  match candidates with
  | [] => Spin
  | short_code :: rest =>
      match m !! short_code with
      | Some _ => unique_code rest m
      | None => Ok short_code
      end
  end.

(** Truthiness of [ttl_hours]: [None] and zero are false. *)
Definition ttl_given (ttl_hours : option Q) : option Q :=
  match ttl_hours with
  | Some h => if Qeq_bool h 0 then None else Some h
  | None => None
  end.

Definition shorten_url (e : env) (data : shorten_body) : M response :=
  match body_url data with
  | None => ret (Json (PError "URL is required") 400)
  | Some url =>
      let original_url := Str.strip url in
      let ttl_hours := body_ttl_hours data in
      if negb (is_valid_url original_url)
      then ret (Json (PError "Invalid URL. Must include http:// or https:// and a domain") 400)
      else
        s <- get ;;
        short_code <- lift (unique_code (draws e) (url_mappings s)) ;;
        let created := clock e in
        let expires :=
          match ttl_given ttl_hours with
          | Some h => Some (created + timedelta_hours h)
          | None => None
          end in
        put (Store (<[short_code := original_url]> (url_mappings s))
               (<[short_code :=
                    Stats 0 (isoformat created)
                      (match expires with
                       | Some t => isoformat t
                       | None => PNone
                       end)]> (url_stats s))) ;;;
        st <- stats_getitem short_code ;;
        ret (Json (PShortened short_code (host_url e ++ short_code)%string
                     original_url (expires_at st)) 201)
  end.

(** ** Resolve: [redirect_to_url] *)

Definition redirect_to_url (short_code : string) : M response :=
  s <- get ;;
  match url_mappings s !! short_code with
  | None => ret (Json (PError "Short code not found") 404)
  | Some _ =>
      incr_clicks short_code ;;;
      url <- mappings_getitem short_code ;;
      ret (Redirect url 302)
  end.

(** ** Stats: [get_stats] *)

(** [not (expires_at and fromisoformat(expires_at) < utcnow())]. *)
Definition is_active_at (now : Z) (expires : pyval) : pyresult bool :=
  if truthy expires then
    match fromisoformat expires with
    | Ok d =>
        match lt_datetime d now with
        | Ok b => Ok (negb b)
        | Raise e => Raise e
        | Spin => Spin
        end
    | Raise e => Raise e
    | Spin => Spin
    end
  else Ok true.

Definition get_stats (e : env) (short_code : string) : M response :=
  s <- get ;;
  match url_mappings s !! short_code with
  | None => ret (Json (PError "Short code not found") 404)
  | Some _ =>
      st <- stats_getitem short_code ;;
      url <- mappings_getitem short_code ;;
      active <- lift (is_active_at (clock e) (expires_at st)) ;;
      ret (Json (PStats short_code url (clicks st) (created_at st)
                   (expires_at st) active) 200)
  end.

(** ** List: [list_urls], and the health statistics *)

Definition list_urls (e : env) : M response :=
  s <- get ;;
  let codes := (map_to_list (url_mappings s)).*1 in
  urls <- mapM (fun code =>
                  st <- stats_getitem code ;;
                  ret (code, (host_url e ++ code)%string, clicks st)) codes ;;
  ret (Json (PList (Z.of_nat (size (url_mappings s))) urls) 200).

Definition api_health : M response :=
  s <- get ;;
  ret (Json (PHealth (Z.of_nat (size (url_mappings s)))
               (foldr Z.add 0 (clicks <$> (map_to_list (url_stats s)).*2))) 200).

(** ** A request: the sweep of [before_request], then the view *)

Definition view (e : env) (r : request) : M response :=
  match r with
  | PostShorten data => shorten_url e data
  | GetCode short_code => redirect_to_url short_code
  | GetStats short_code => get_stats e short_code
  | GetUrls => list_urls e
  | GetHealth => api_health
  end.

Definition handle (e : env) (r : request) : M response :=
  before_request e ;;; view e r.

(** The store after a sequence of requests, each with its environment. *)
Definition run (reqs : list (env * request)) (s : store) : store :=
  foldl (fun s er => (handle er.1 er.2 s).2) s reqs.

(** A store is reachable when a sequence of requests leads to it from the
    empty store. *)
Definition reachable (s : store) : Prop :=
  exists reqs, s = run reqs empty_store.

(** ** Concurrent requests for one short code

    Several threads serve GET /<target> at once. Each statement of
    [before_request] and of [redirect_to_url] is one atomic step of its
    thread; [with lock:] is an acquire step, which can only be taken
    while the lock is free, and a release step. The augmented assignment
    to ['clicks'] is a read step followed by a write step. A schedule
    names the thread that moves next. The comprehension of the sweep is
    one statement, hence one step. The program points are named after
    what the thread does next: [Member] is the test
    [short_code not in url_mappings]. *)
Module Concurrent.

Inductive pc : Type :=
  | Scan (now : Z)
  | SweepAcquire (codes : list string)
  | SweepPop (codes : list string)
  | SweepPopStats (code : string) (codes : list string)
  | SweepRelease
  | Member
  | Acquire
  | Load
  | Write (n : Z)
  | Release
  | Return
  | Done (r : pyresult response).

Record system : Type := System {
  shared : store;
  lock : option nat;
  threads : list pc
}.

Definition goto (i : nat) (p : pc) (sys : system) : system :=
  System (shared sys) (lock sys) (<[i := p]> (threads sys)).

Definition with_store (s : store) (sys : system) : system :=
  System s (lock sys) (threads sys).

Definition with_lock (l : option nat) (sys : system) : system :=
  System (shared sys) l (threads sys).

(** One step of thread [i] on the way to resolving [target]. *)
Definition step (target : string) (i : nat) (sys : system) : system :=
  let s := shared sys in
  match threads sys !! i with
  | None => sys
  | Some p =>
      match p with
      | Scan now =>
          match expired_codes now (map_to_list (url_stats s)) with
          | Ok codes => goto i (SweepAcquire codes) sys
          | Raise e => goto i (Done (Raise e)) sys
          | Spin => goto i (Done Spin) sys
          end
      | SweepAcquire codes =>
          match lock sys with
          | None => goto i (SweepPop codes) (with_lock (Some i) sys)
          | Some _ => sys
          end
      | SweepPop [] => goto i SweepRelease sys
      | SweepPop (code :: rest) =>
          goto i (SweepPopStats code rest)
            (with_store (Store (delete code (url_mappings s)) (url_stats s)) sys)
      | SweepPopStats code rest =>
          goto i (SweepPop rest)
            (with_store (Store (url_mappings s) (delete code (url_stats s))) sys)
      | SweepRelease => goto i Member (with_lock None sys)
      | Member =>
          match url_mappings s !! target with
          | None => goto i (Done (Ok (Json (PError "Short code not found") 404))) sys
          | Some _ => goto i Acquire sys
          end
      | Acquire =>
          match lock sys with
          | None => goto i Load (with_lock (Some i) sys)
          | Some _ => sys
          end
      | Load =>
          match stats_getitem target s with
          | (Ok st, s') => goto i (Write (clicks st)) (with_store s' sys)
          | (Raise e, s') => goto i (Done (Raise e)) (with_lock None (with_store s' sys))
          | (Spin, s') => goto i (Done Spin) (with_lock None (with_store s' sys))
          end
      | Write n =>
          match url_stats s !! target with
          | Some st =>
              goto i Release
                (with_store
                   (Store (url_mappings s)
                      (<[target := Stats (n + 1) (created_at st) (expires_at st)]>
                         (url_stats s))) sys)
          | None => goto i Release sys
          end
      | Release => goto i Return (with_lock None sys)
      | Return =>
          match url_mappings s !! target with
          | Some url => goto i (Done (Ok (Redirect url 302))) sys
          | None => goto i (Done (Raise KeyError)) sys
          end
      | Done _ => sys
      end
  end.

(** The system after the threads moved in the order of the schedule. *)
Definition run_schedule (target : string) (schedule : list nat) (sys : system)
  : system :=
  foldl (fun sys i => step target i sys) sys schedule.

(** The requests start together: every thread is about to sweep. *)
Definition start (s : store) (clocks : list Z) : system :=
  System s None (Scan <$> clocks).


(** A thread whose request was answered with the redirect. *)
Definition succeeded (p : pc) : bool :=
  match p with
  | Done (Ok (Redirect _ 302)) => true
  | _ => false
  end.

Definition count_if (f : pc -> bool) (ps : list pc) : Z :=
  Z.of_nat (length (filter (fun p => f p = true) ps)).

(** The click count the store holds for a code, if it holds one. *)
Definition clicks_of (s : store) (code : string) : option Z :=
  clicks <$> url_stats s !! code.

(** The thread is inside a [with lock:] block. *)
Definition holds_lock (p : pc) : bool :=
  match p with
  | SweepPop _ | SweepPopStats _ _ | SweepRelease | Load | Write _ | Release => true
  | _ => false
  end.

(** The thread has written its increment. *)
Definition counted (p : pc) : bool :=
  match p with
  | Release | Return => true
  | other => succeeded other
  end.

(** What a thread carries never threatens the record of [target], and an
    answer is the redirect to [url] or the failure of the sweep. *)
Definition harmless (target url : string) (p : pc) : Prop :=
  match p with
  | SweepAcquire codes | SweepPop codes => target ∉ codes
  | SweepPopStats c codes => c <> target /\ target ∉ codes
  | Done r => r = Ok (Redirect url 302) \/ r = Raise TypeError
  | _ => True
  end.

(** The invariant of the runs that resolve [target], a code whose record
    has no expiry and had [prior] clicks at the start: the record stays,
    its click count is [prior] plus the number of threads that have
    written their increment, only the holder of the lock is inside a
    locked block, and a thread about to write holds the current count. *)
Record Inv (target url : string) (prior : Z) (sys : system) : Prop := {
  inv_url : url_mappings (shared sys) !! target = Some url;
  inv_stats :
    exists st, url_stats (shared sys) !! target = Some st
               /\ expires_at st = PNone
               /\ clicks st = prior + count_if counted (threads sys);
  inv_lock :
    forall i p, threads sys !! i = Some p -> holds_lock p = true ->
                lock sys = Some i;
  inv_write :
    forall i n, threads sys !! i = Some (Write n) ->
                clicks_of (shared sys) target = Some n;
  inv_harmless :
    forall i p, threads sys !! i = Some p -> harmless target url p
}.

Arguments inv_url {target url prior sys}.
Arguments inv_stats {target url prior sys}.
Arguments inv_lock {target url prior sys}.
Arguments inv_write {target url prior sys}.
Arguments inv_harmless {target url prior sys}.

End Concurrent.

(** ** Vocabulary of the statements *)

(** The expiry of the record is set and strictly earlier than [now]. *)
Definition due (now : Z) (st : stats) : bool :=
  match expiry_time (expires_at st) with
  | Some t => t <? now
  | None => false
  end.


(** The record keeps its expiry as an ISO string. *)
Definition holds_str (st : stats) : bool :=
  match expires_at st with
  | PIsoStr _ => true
  | _ => false
  end.

(** The sweep at [now] selects the record of [code]. *)
Definition swept (now : Z) (s : store) (code : string) : bool :=
  match url_stats s !! code with
  | Some st => due now st
  | None => false
  end.

(** The statistics a handler sees for [code]: the stored entry, or the
    default of the [defaultdict]. *)
Definition stats_of (s : store) (code : string) : stats :=
  default default_stats (url_stats s !! code).

(** Both dictionaries have the same keys. *)
Definition same_keys (s : store) : Prop :=
  dom (url_mappings s) = dom (url_stats s).

(** The codes a listing enumerates. *)
Definition live_codes (s : store) : list string :=
  (map_to_list (url_mappings s)).*1.

(** What Insert stores as the expiry of a record created at [created]. *)
Definition stored_expiry (created : Z) (ttl_hours : option Q) : pyval :=
  match ttl_given ttl_hours with
  | Some h => isoformat (created + timedelta_hours h)
  | None => PNone
  end.

(** The record Insert creates. *)
Definition new_stats (e : env) (ttl_hours : option Q) : stats :=
  Stats 0 (isoformat (clock e)) (stored_expiry (clock e) ttl_hours).

(** The store after Insert put [url] under [code]. *)
Definition inserted (e : env) (code url : string) (ttl_hours : option Q)
    (s : store) : store :=
  Store (<[code := url]> (url_mappings s))
        (<[code := new_stats e ttl_hours]> (url_stats s)).

Definition invalid_url : response :=
  Json (PError "Invalid URL. Must include http:// or https:// and a domain") 400.
Definition not_found : response := Json (PError "Short code not found") 404.


(** The status code of an outcome, when the outcome is a response. *)
Definition status (r : pyresult response) : option Z :=
  match r with
  | Ok resp => Some (status_of resp)
  | _ => None
  end.


(** Some draw of the generator is not a key of [url_mappings]. *)
Definition has_free_draw (e : env) (s : store) : Prop :=
  exists c, c ∈ draws e /\ url_mappings s !! c = None.

(** The store operations, each with what it reads from outside. *)
Inductive operation : Type :=
  | Insert (e : env) (data : shorten_body)
  | Resolve (short_code : string)
  | StatsOf (e : env) (short_code : string)
  | ListAll (e : env)
  | Sweep (now : Z).

(** The store an operation leaves behind. *)
Definition perform (s : store) (o : operation) : store :=
  match o with
  | Insert e data => (shorten_url e data s).2
  | Resolve short_code => (redirect_to_url short_code s).2
  | StatsOf e short_code => (get_stats e short_code s).2
  | ListAll e => (list_urls e s).2
  | Sweep now => (cleanup_expired_urls now s).2
  end.

(** No record keeps its expiry as a datetime object: each expiry is
    absent or an ISO string, the two forms Insert stores. *)
Definition well_stored (s : store) : Prop :=
  forall code st, url_stats s !! code = Some st ->
                  forall t, expires_at st <> PDatetime t.

(** ** Stores and environments of the examples *)

Module Sample.

(** A request served at clock [t], with one draw of the generator. *)
Definition at_time (t : Z) : env := Env t t ["abc123"] "http://localhost/".

Definition hour : Z := 3600000000.

Definition temp_body (ttl : option Q) : shorten_body :=
  ShortenBody (Some "https://temp.com") ttl.

(** The store after one Insert with a TTL of one hour at clock 0. *)
Definition one_hour : store :=
  (handle (at_time 0) (PostShorten (temp_body (Some (1 # 1)%Q))) empty_store).2.

(** The store after one Insert with a TTL of zero at clock 0. *)
Definition zero_ttl : store :=
  (handle (at_time 0) (PostShorten (temp_body (Some (0 # 1)%Q))) empty_store).2.


(** Three records: no expiry, expiry 50 and expiry 100, as datetimes. *)
Definition three : store :=
  Store (<[ "aaaaaa" := "https://a.example" ]>
           (<[ "bbbbbb" := "https://b.example" ]>
              {[ "cccccc" := "https://c.example" ]}))
        (<[ "aaaaaa" := Stats 3 (PIsoStr 0) PNone ]>
           (<[ "bbbbbb" := Stats 1 (PIsoStr 0) (PDatetime 50) ]>
              {[ "cccccc" := Stats 0 (PIsoStr 0) (PDatetime 100) ]})).

(** Threads 0, 1 and 2 take turns, [rounds] times over. *)
Definition interleaved (rounds : nat) : list nat :=
  concat (replicate rounds [0; 1; 2; 2; 1]%nat).

End Sample.

(** ** The code generator: [generate_short_code] *)

Module Gen.

(** [string.ascii_letters + string.digits]. *)
Definition chars : string :=
  "abcdefghijklmnopqrstuvwxyzABCDEFGHIJKLMNOPQRSTUVWXYZ0123456789".

(** [random.choice(chars)] when the generator draws the index [i]. *)
Definition choice (i : nat) : option ascii := String.get i chars.

(** [''.join(random.choice(chars) for _ in range(length))]: one index is
    drawn for each of the [length] characters. An index outside [chars],
    which [random.choice] never draws, gives no result. *)
Fixpoint generate_short_code (picks : list nat) : option string :=
  match picks with
  | [] => Some EmptyString
  | i :: rest =>
      match choice i, generate_short_code rest with
      | Some a, Some code => Some (String a code)
      | _, _ => None
      end
  end.

Definition is_alnum (a : ascii) : bool := Url.is_alpha a || Url.is_digit a.

Fixpoint all_alnum (s : string) : bool :=
  match s with
  | EmptyString => true
  | String a rest => is_alnum a && all_alnum rest
  end.

(** A code of the default length: six alphanumeric characters. *)
Definition is_short_code (code : string) : bool :=
  (String.length code =? 6)%nat && all_alnum code.

End Gen.

(** Every key of [url_mappings] is a code of six alphanumeric characters. *)
Definition keys_are_codes (s : store) : Prop :=
  forall code url, url_mappings s !! code = Some url ->
                   Gen.is_short_code code = true.

(** ** The statistics of [api_health] *)

(** [len(url_mappings)]. *)
Definition active_urls (s : store) : Z := Z.of_nat (size (url_mappings s)).

(** [sum(stats['clicks'] for stats in url_stats.values())]. *)
Definition total_clicks (s : store) : Z :=
  foldr Z.add 0 (clicks <$> (map_to_list (url_stats s)).*2).

(** No record of the store has an expiry. *)
Definition no_expiry (s : store) : Prop :=
  forall code st, url_stats s !! code = Some st -> expires_at st = PNone.

(** The store after [n] Resolve calls on [code], one after the other. *)
Definition resolve_times (n : nat) (code : string) (s : store) : store :=
  Nat.iter n (fun s => (redirect_to_url code s).2) s.


(** * Properties *)

(** ** [str.strip()] *)

Module StrFacts.
Import Str.




Lemma lstrip_first (s : string) (a : ascii) :
  first_char (lstrip s) = Some a -> is_space a = false.
Proof.
  induction s as [|b s IH]; simpl; [discriminate|].
  destruct (is_space b) eqn:Hb; [exact IH|].
  simpl. intros [= <-]. exact Hb.
Qed.



Lemma rstrip_first (s : string) (a : ascii) :
  first_char (rstrip s) = Some a -> first_char s = Some a.
Proof.
  destruct s as [|b s]; simpl; [discriminate|].
  destruct (rstrip s); [destruct (is_space b)|]; simpl; intros H; try discriminate H; exact H.
Qed.


Lemma strip_first (s : string) (a : ascii) :
  first_char (strip s) = Some a -> is_space a = false.
Proof. intros H. eapply lstrip_first, rstrip_first, H. Qed.


End StrFacts.

(** ** The sweep *)

Section Sweep.
Variable now : Z.

Lemma is_expired_cases (st : stats) :
  is_expired now st
  = if holds_str st then Raise TypeError else Ok (due now st).
Proof.
  unfold is_expired, holds_str, due. destruct (expires_at st); reflexivity.
Qed.

(** The comprehension succeeds exactly on the items that hold no ISO
    string, and then selects the codes that are due. *)
Lemma expired_codes_ok (items : list (string * stats)) :
  Forall (fun p => holds_str p.2 = false) items ->
  expired_codes now items = Ok (filter (fun p => due now p.2 = true) items).*1.
Proof.
  induction 1 as [|[code st] items Hst _ IH]; [reflexivity|].
  cbn [expired_codes snd] in *. rewrite is_expired_cases, Hst, IH.
  destruct (due now st) eqn:Hd.
  - rewrite filter_cons_True by exact Hd. reflexivity.
  - rewrite filter_cons_False; [reflexivity|]. cbn [snd]. congruence.
Qed.

Lemma expired_codes_raises (items : list (string * stats)) :
  Exists (fun p => holds_str p.2 = true) items ->
  expired_codes now items = Raise TypeError.
Proof.
  induction items as [|[code st] items IH]; intros H.
  - inversion H.
  - simpl. rewrite is_expired_cases. destruct (holds_str st) eqn:Hst; [reflexivity|].
    inversion H as [? ? H1|? ? H1]; subst; simpl in *; [congruence|].
    rewrite (IH H1). reflexivity.
Qed.

Lemma expired_codes_inv (items : list (string * stats)) (codes : list string) :
  expired_codes now items = Ok codes ->
  Forall (fun p => holds_str p.2 = false) items.
Proof.
  intros H. apply Forall_forall. intros p Hp.
  destruct (holds_str p.2) eqn:Hs; [|reflexivity].
  rewrite expired_codes_raises in H; [discriminate|].
  apply Exists_exists. exists p. auto.
Qed.

Lemma expired_codes_never_spins (items : list (string * stats)) :
  expired_codes now items <> Spin.
Proof.
  destruct (decide (Forall (fun p => holds_str p.2 = false) items)) as [H|H].
  - rewrite expired_codes_ok by exact H. discriminate.
  - apply not_Forall_Exists in H; [|intros ?; apply _].
    rewrite expired_codes_raises; [discriminate|].
    eapply Exists_impl; [exact H|]. intros p Hp. unfold compose in Hp.
    destruct (holds_str p.2); [reflexivity | by destruct Hp].
Qed.

End Sweep.

Lemma pop_codes_mappings (codes : list string) (s : store) (code : string) :
  url_mappings (foldl pop_code s codes) !! code
  = if decide (code ∈ codes) then None else url_mappings s !! code.
Proof.
  revert s. induction codes as [|c codes IH]; intros s; cbn [foldl].
  - destruct (decide (code ∈ [])) as [Hin|_]; [|reflexivity].
    by apply not_elem_of_nil in Hin.
  - rewrite IH. cbn [pop_code url_mappings url_stats].
    destruct (decide (code = c)) as [->|Hne].
    + rewrite lookup_delete_eq.
      destruct (decide (c ∈ codes)), (decide (c ∈ c :: codes)) as [|Hn];
        try reflexivity.
      all: exfalso; apply Hn; left.
    + rewrite lookup_delete_ne by done.
      destruct (decide (code ∈ codes)) as [Hin|Hin],
               (decide (code ∈ c :: codes)) as [Hin'|Hin']; try reflexivity.
      * exfalso. apply Hin'. by right.
      * exfalso. apply elem_of_cons in Hin' as [?|?]; done.
Qed.

Lemma pop_codes_stats (codes : list string) (s : store) (code : string) :
  url_stats (foldl pop_code s codes) !! code
  = if decide (code ∈ codes) then None else url_stats s !! code.
Proof.
  revert s. induction codes as [|c codes IH]; intros s; cbn [foldl].
  - destruct (decide (code ∈ [])) as [Hin|_]; [|reflexivity].
    by apply not_elem_of_nil in Hin.
  - rewrite IH. cbn [pop_code url_mappings url_stats].
    destruct (decide (code = c)) as [->|Hne].
    + rewrite lookup_delete_eq.
      destruct (decide (c ∈ codes)), (decide (c ∈ c :: codes)) as [|Hn];
        try reflexivity.
      all: exfalso; apply Hn; left.
    + rewrite lookup_delete_ne by done.
      destruct (decide (code ∈ codes)) as [Hin|Hin],
               (decide (code ∈ c :: codes)) as [Hin'|Hin']; try reflexivity.
      * exfalso. apply Hin'. by right.
      * exfalso. apply elem_of_cons in Hin' as [?|?]; done.
Qed.

(** The codes the comprehension selects are those the sweep is due on. *)
Lemma due_codes_swept (now : Z) (s : store) (code : string) :
  code ∈ (filter (fun p => due now p.2 = true) (map_to_list (url_stats s))).*1
  <-> swept now s code = true.
Proof.
  unfold swept. rewrite list_elem_of_fmap. split.
  - intros ([c st] & -> & Hin). apply list_elem_of_filter in Hin as [Hd Hin].
    apply elem_of_map_to_list in Hin. simpl in *. by rewrite Hin.
  - destruct (url_stats s !! code) as [st|] eqn:Hst; [|discriminate].
    intros Hd. exists (code, st). split; [reflexivity|].
    apply list_elem_of_filter. split; [exact Hd|].
    by apply elem_of_map_to_list.
Qed.

Lemma cleanup_unfold (now : Z) (s : store) :
  cleanup_expired_urls now s
  = match expired_codes now (map_to_list (url_stats s)) with
    | Ok codes => (Ok tt, foldl pop_code s codes)
    | Raise e => (Raise e, s)
    | Spin => (Spin, s)
    end.
Proof.
  unfold cleanup_expired_urls, bind, get, lift, put.
  destruct (expired_codes _ _); reflexivity.
Qed.

(** A record that keeps its expiry as a string makes the sweep raise, and
    the store is left as it was. *)
Lemma cleanup_raises (now : Z) (s : store) (code : string) (st : stats) :
  url_stats s !! code = Some st -> holds_str st = true ->
  cleanup_expired_urls now s = (Raise TypeError, s).
Proof.
  intros Hst Hs. rewrite cleanup_unfold, expired_codes_raises; [reflexivity|].
  apply Exists_exists. exists (code, st). split; [|exact Hs].
  by apply elem_of_map_to_list.
Qed.

Lemma cleanup_completes (now : Z) (s : store) :
  (forall code st, url_stats s !! code = Some st -> holds_str st = false) ->
  cleanup_expired_urls now s
  = (Ok tt,
     foldl pop_code s
       (filter (fun p => due now p.2 = true) (map_to_list (url_stats s))).*1).
Proof.
  intros H. rewrite cleanup_unfold, expired_codes_ok; [reflexivity|].
  apply Forall_forall. intros [code st] Hin.
  apply elem_of_map_to_list in Hin. exact (H code st Hin).
Qed.

(** The sweep never ends any other way than by returning or by the
    [TypeError] of the comparison. *)
Lemma cleanup_outcomes (now : Z) (s : store) :
  (exists s', cleanup_expired_urls now s = (Ok tt, s'))
  \/ cleanup_expired_urls now s = (Raise TypeError, s).
Proof.
  destruct (decide (Forall (fun p => holds_str p.2 = false)
                      (map_to_list (url_stats s)))) as [H|H].
  - left. eexists. rewrite cleanup_unfold, expired_codes_ok by exact H. reflexivity.
  - right. apply not_Forall_Exists in H; [|intros ?; apply _].
    rewrite cleanup_unfold, expired_codes_raises; [reflexivity|].
    eapply Exists_impl; [exact H|]. intros p Hp. unfold compose in Hp.
    destruct (holds_str p.2); [reflexivity | by destruct Hp].
Qed.

(** ** The handlers, one equation per case *)

Lemma stats_getitem_unfold (code : string) (s : store) :
  stats_getitem code s
  = (Ok (stats_of s code),
     match url_stats s !! code with
     | Some _ => s
     | None => Store (url_mappings s) (<[code := default_stats]> (url_stats s))
     end).
Proof.
  unfold stats_getitem, stats_of, bind, get, put, ret.
  destruct (url_stats s !! code); reflexivity.
Qed.

Lemma incr_clicks_unfold (code : string) (s : store) :
  incr_clicks code s
  = (Ok tt,
     Store (url_mappings s)
       (<[code := Stats (clicks (stats_of s code) + 1)
                    (created_at (stats_of s code))
                    (expires_at (stats_of s code))]> (url_stats s))).
Proof.
  unfold incr_clicks, bind. rewrite stats_getitem_unfold.
  unfold get, put. destruct (url_stats s !! code) eqn:Hst; cbn.
  - reflexivity.
  - by rewrite insert_insert_eq.
Qed.

Lemma redirect_absent (code : string) (s : store) :
  url_mappings s !! code = None ->
  redirect_to_url code s = (Ok (Json (PError "Short code not found") 404), s).
Proof. intros H. unfold redirect_to_url, bind, get, ret. by rewrite H. Qed.

Lemma redirect_present (code url : string) (s : store) :
  url_mappings s !! code = Some url ->
  redirect_to_url code s
  = (Ok (Redirect url 302),
     Store (url_mappings s)
       (<[code := Stats (clicks (stats_of s code) + 1)
                    (created_at (stats_of s code))
                    (expires_at (stats_of s code))]> (url_stats s))).
Proof.
  intros H. unfold redirect_to_url, bind at 1. unfold get at 1. rewrite H.
  unfold bind at 1. rewrite incr_clicks_unfold.
  unfold mappings_getitem, bind, get, ret. cbn. by rewrite H.
Qed.


Lemma get_stats_absent (e : env) (code : string) (s : store) :
  url_mappings s !! code = None ->
  get_stats e code s = (Ok (Json (PError "Short code not found") 404), s).
Proof. intros H. unfold get_stats, bind, get, ret. by rewrite H. Qed.

Lemma get_stats_present (e : env) (code url : string) (s : store) :
  url_mappings s !! code = Some url ->
  get_stats e code s
  = let st := stats_of s code in
    let s' := (stats_getitem code s).2 in
    match is_active_at (clock e) (expires_at st) with
    | Ok active =>
        (Ok (Json (PStats code url (clicks st) (created_at st) (expires_at st)
                     active) 200), s')
    | Raise ex => (Raise ex, s')
    | Spin => (Spin, s')
    end.
Proof.
  intros Hu. unfold get_stats, bind at 1. unfold get at 1. rewrite Hu.
  unfold bind at 1. rewrite stats_getitem_unfold.
  unfold mappings_getitem, bind, get, ret, lift.
  destruct (url_stats s !! code); cbn; rewrite Hu;
    destruct (is_active_at _ _); reflexivity.
Qed.

Lemma stats_getitem_present (code : string) (st : stats) (s : store) :
  url_stats s !! code = Some st ->
  stats_getitem code s = (Ok st, s).
Proof.
  intros H. rewrite stats_getitem_unfold. unfold stats_of. by rewrite H.
Qed.

(** ** The retry loop *)

Lemma unique_code_spec (cands : list string) (m : gmap string string) (c : string) :
  unique_code cands m = Ok c ->
  exists taken rest : list string,
    cands = (taken ++ c :: rest)%list
    /\ Forall (fun x => is_Some (m !! x)) taken
    /\ m !! c = None.
Proof.
  induction cands as [|x cands IH]; simpl; [discriminate|].
  destruct (m !! x) eqn:Hx.
  - intros H. destruct (IH H) as (taken & rest & -> & Ht & Hc).
    exists (x :: taken), rest. repeat split; [|exact Hc].
    constructor; [by rewrite Hx | exact Ht].
  - intros [= <-]. exists [], cands. repeat split; [constructor | exact Hx].
Qed.

Lemma unique_code_total (cands : list string) (m : gmap string string) :
  (exists c, c ∈ cands /\ m !! c = None) ->
  exists c, unique_code cands m = Ok c.
Proof.
  intros (c & Hin & Hc). induction cands as [|x cands IH]; simpl.
  - by apply not_elem_of_nil in Hin.
  - destruct (m !! x) eqn:Hx; [|by eexists].
    apply IH. apply elem_of_cons in Hin as [->|Hin]; [congruence | exact Hin].
Qed.


(** ** Insert, one equation per case *)


Lemma shorten_invalid (e : env) (u : string) (ttl : option Q) (s : store) :
  is_valid_url (Str.strip u) = false ->
  shorten_url e (ShortenBody (Some u) ttl) s = (Ok invalid_url, s).
Proof. intros H. unfold shorten_url. cbn. rewrite H. reflexivity. Qed.

Lemma shorten_valid (e : env) (u : string) (ttl : option Q) (s : store) :
  is_valid_url (Str.strip u) = true ->
  shorten_url e (ShortenBody (Some u) ttl) s
  = match unique_code (draws e) (url_mappings s) with
    | Ok c =>
        (Ok (Json (PShortened c (host_url e ++ c)%string (Str.strip u)
                     (stored_expiry (clock e) ttl)) 201),
         inserted e c (Str.strip u) ttl s)
    | Raise ex => (Raise ex, s)
    | Spin => (Spin, s)
    end.
Proof.
  intros H. unfold shorten_url. cbn [body_url body_ttl_hours]. rewrite H.
  cbn [negb]. unfold bind at 1. unfold get at 1. unfold bind at 1.
  unfold lift at 1. destruct (unique_code _ _) as [c| |]; try reflexivity.
  unfold bind at 1. unfold put at 1. unfold bind at 1.
  rewrite stats_getitem_unfold. unfold stats_of. cbn [url_stats url_mappings].
  rewrite !lookup_insert_eq. unfold ret, inserted, new_stats, stored_expiry.
  cbn. destruct (ttl_given ttl); reflexivity.
Qed.

(** ** Sweep ([cleanup_expired_urls]) *)

Lemma cleanup_result (now : Z) (s s' : store) :
  cleanup_expired_urls now s = (Ok tt, s') ->
  forall code,
    url_mappings s' !! code
    = (if swept now s code then None else url_mappings s !! code)
    /\ url_stats s' !! code
       = (if swept now s code then None else url_stats s !! code).
Proof.
  rewrite cleanup_unfold.
  destruct (expired_codes now (map_to_list (url_stats s))) as [codes| |] eqn:Hc;
    [|discriminate..].
  intros [= <-] code.
  pose proof (expired_codes_inv _ _ _ Hc) as Hall.
  rewrite expired_codes_ok in Hc by exact Hall. injection Hc as <-.
  rewrite pop_codes_mappings, pop_codes_stats.
  pose proof (due_codes_swept now s code) as Hsw.
  destruct (decide (code ∈ _)) as [Hin|Hin].
  - apply Hsw in Hin. rewrite Hin. auto.
  - destruct (swept now s code); [|auto]. exfalso. apply Hin, Hsw. reflexivity.
Qed.



(** What the sweep of the witness does: the record due at 100 goes, the
    record expiring at 100 and the record without expiry stay. *)
Example sweep_three :
  let s' := (cleanup_expired_urls 100 Sample.three).2 in
  url_mappings s' !! "bbbbbb" = None
  /\ url_stats s' !! "bbbbbb" = None
  /\ url_mappings s' !! "cccccc" = Some "https://c.example"
  /\ url_stats s' !! "aaaaaa" = Some (Stats 3 (PIsoStr 0) PNone).
Proof. vm_compute. auto. Qed.


(** ** Failure of the sweep on a stored expiry *)

(** Once a record keeps an expiry string, every request ends in the
    [TypeError] of the sweep, before its view runs, and the store stays
    as it is. *)
Lemma handle_raises (e : env) (r : request) (s : store) (code : string) (st : stats) :
  url_stats s !! code = Some st -> holds_str st = true ->
  handle e r s = (Raise TypeError, s).
Proof.
  intros Hst Hs. unfold handle, bind, before_request.
  rewrite (cleanup_raises _ _ _ _ Hst Hs). reflexivity.
Qed.

(** Insert with a TTL that is not zero stores such a string. *)
Lemma inserted_holds_str (e : env) (c u : string) (h : Q) (s : store) :
  Qeq_bool h 0 = false ->
  exists st, url_stats (inserted e c u (Some h) s) !! c = Some st
             /\ holds_str st = true.
Proof.
  intros Hh. eexists. split; [apply lookup_insert_eq|].
  unfold new_stats, stored_expiry, ttl_given, holds_str. cbn. rewrite Hh.
  reflexivity.
Qed.

(** C2, the failing run. A record is inserted with a TTL of one hour into
    the empty store (201). Each request that follows, whatever its kind
    and its time, ends in [TypeError]: the sweep of [before_request]
    compares the stored ISO string with a datetime. The sweep called on
    its own raises too. *)
Theorem request_after_ttl_insert_raises :
  (handle (Sample.at_time 0)
     (PostShorten (Sample.temp_body (Some (1 # 1)%Q))) empty_store).1
  = Ok (Json (PShortened "abc123" "http://localhost/abc123" "https://temp.com"
                (PIsoStr Sample.hour)) 201)
  /\ (handle (Sample.at_time 1) GetUrls Sample.one_hour).1 = Raise TypeError
  /\ (handle (Sample.at_time 1) (GetCode "abc123") Sample.one_hour).1 = Raise TypeError
  /\ (handle (Sample.at_time 1) (GetStats "abc123") Sample.one_hour).1 = Raise TypeError
  /\ (handle (Env 1 1 ["xyz789"] "http://localhost/")
        (PostShorten (ShortenBody (Some "https://example.com") None))
        Sample.one_hour).1 = Raise TypeError
  /\ (cleanup_expired_urls 1 Sample.one_hour).1 = Raise TypeError.
Proof. vm_compute. repeat split. Qed.

(** ** Resolve ([redirect_to_url]) *)

Lemma stats_of_insert (m : gmap string string) (t : gmap string stats)
    (code : string) (st : stats) :
  stats_of (Store m (<[code := st]> t)) code = st.
Proof. unfold stats_of. cbn. by rewrite lookup_insert_eq. Qed.





(** ** Stats ([get_stats]) *)




(** ** Insert ([shorten_url]): validation *)



Lemma shorten_accepts (e : env) (u : string) (ttl : option Q) (s : store) :
  is_valid_url (Str.strip u) = true ->
  has_free_draw e s ->
  exists c,
    c ∈ draws e /\ url_mappings s !! c = None
    /\ unique_code (draws e) (url_mappings s) = Ok c
    /\ shorten_url e (ShortenBody (Some u) ttl) s
       = (Ok (Json (PShortened c (host_url e ++ c)%string (Str.strip u)
                      (stored_expiry (clock e) ttl)) 201),
          inserted e c (Str.strip u) ttl s).
Proof.
  intros Hv Hfree. destruct (unique_code_total _ _ Hfree) as [c Hc].
  exists c. rewrite (shorten_valid _ _ _ _ Hv), Hc.
  destruct (unique_code_spec _ _ _ Hc) as (taken & rest & Heq & _ & Hnone).
  repeat split; [|exact Hnone].
  rewrite Heq. apply elem_of_app. right. left.
Qed.



(** ** Insert: the stripped URL *)



Example strip_example :
  Str.strip "  https://example.com/a b  " = "https://example.com/a b".
Proof. reflexivity. Qed.

(** ** Insert: the code is fresh *)

Lemma elem_of_live_codes (s : store) (c : string) :
  c ∈ live_codes s <-> is_Some (url_mappings s !! c).
Proof.
  unfold live_codes. rewrite list_elem_of_fmap. split.
  - intros ([c' url] & -> & Hin). apply elem_of_map_to_list in Hin. by eexists.
  - intros [url Hu]. exists (c, url). split; [reflexivity|].
    by apply elem_of_map_to_list.
Qed.

Lemma live_codes_NoDup (s : store) : NoDup (live_codes s).
Proof. apply NoDup_fst_map_to_list. Qed.




(** The retry loop of the witness skips the two colliding draws. *)
Example retry_example :
  (shorten_url (Env 1 1 ["abc123"; "abc123"; "xyz789"; "q1w2e3"] "h/")
     (ShortenBody (Some "http://b.example") None) Sample.zero_ttl).1
  = Ok (Json (PShortened "xyz789" "h/xyz789" "http://b.example" PNone) 201).
Proof. vm_compute. reflexivity. Qed.

(** ** Insert with a TTL of zero or below *)









(** ** The two dictionaries keep the same keys *)

Lemma same_keys_lookup (s : store) (code : string) :
  same_keys s -> is_Some (url_mappings s !! code) -> is_Some (url_stats s !! code).
Proof.
  unfold same_keys. intros H Hm. apply elem_of_dom. rewrite <- H.
  by apply elem_of_dom.
Qed.

Lemma pop_code_same_keys (s : store) (code : string) :
  same_keys s -> same_keys (pop_code s code).
Proof.
  unfold same_keys, pop_code. cbn. intros H. by rewrite !dom_delete_L, H.
Qed.

Lemma pop_codes_same_keys (codes : list string) (s : store) :
  same_keys s -> same_keys (foldl pop_code s codes).
Proof.
  revert s. induction codes as [|c codes IH]; intros s H; cbn; [exact H|].
  apply IH, pop_code_same_keys, H.
Qed.

Lemma cleanup_same_keys (now : Z) (s : store) :
  same_keys s -> same_keys (cleanup_expired_urls now s).2.
Proof.
  intros H. rewrite cleanup_unfold.
  destruct (expired_codes _ _); cbn; [|exact H..].
  by apply pop_codes_same_keys.
Qed.

Lemma inserted_same_keys (e : env) (c url : string) (ttl : option Q) (s : store) :
  same_keys s -> same_keys (inserted e c url ttl s).
Proof.
  unfold same_keys, inserted. cbn. intros H. by rewrite !dom_insert_L, H.
Qed.

Lemma shorten_same_keys (e : env) (data : shorten_body) (s : store) :
  same_keys s -> same_keys (shorten_url e data s).2.
Proof.
  intros H. destruct data as [[u|] ttl]; [|exact H].
  destruct (is_valid_url (Str.strip u)) eqn:Hv.
  - rewrite (shorten_valid _ _ _ _ Hv).
    destruct (unique_code _ _); cbn; [|exact H..].
    by apply inserted_same_keys.
  - by rewrite (shorten_invalid _ _ _ _ Hv).
Qed.

Lemma redirect_same_keys (code : string) (s : store) :
  same_keys s -> same_keys (redirect_to_url code s).2.
Proof.
  intros H. destruct (url_mappings s !! code) as [url|] eqn:Hu.
  - rewrite (redirect_present _ _ _ Hu). unfold same_keys in *. cbn.
    rewrite dom_insert_L, <- H.
    assert (Hin : code ∈ dom (url_mappings s)) by (apply elem_of_dom; by eexists).
    apply set_eq. intros x. rewrite elem_of_union, elem_of_singleton.
    split; [by right | by intros [->|?]].
  - by rewrite (redirect_absent _ _ Hu).
Qed.

Lemma get_stats_same_keys (e : env) (code : string) (s : store) :
  same_keys s -> (get_stats e code s).2 = s.
Proof.
  intros H. destruct (url_mappings s !! code) as [url|] eqn:Hu.
  - destruct (same_keys_lookup s code H) as [st Hst]; [by eexists|].
    rewrite (get_stats_present _ _ _ _ Hu), (stats_getitem_present _ _ _ Hst).
    cbn zeta. destruct (is_active_at _ _); reflexivity.
  - by rewrite (get_stats_absent _ _ _ Hu).
Qed.

(** Reading the statistics of codes that all have an entry changes
    nothing. *)
Lemma mapM_stats_present (host : string) (codes : list string) (s : store) :
  Forall (fun c => is_Some (url_stats s !! c)) codes ->
  mapM (fun code =>
          st <- stats_getitem code ;;
          ret (code, (host ++ code)%string, clicks st)) codes s
  = (Ok ((fun c => (c, (host ++ c)%string, clicks (stats_of s c))) <$> codes), s).
Proof.
  induction 1 as [|c codes [st Hst] _ IH]; [reflexivity|].
  cbn [mapM]. unfold bind at 1. unfold bind at 1.
  rewrite (stats_getitem_present _ _ _ Hst). unfold ret at 1.
  unfold bind at 1. rewrite IH. unfold ret. rewrite fmap_cons.
  assert (Hof : stats_of s c = st) by (unfold stats_of; by rewrite Hst).
  by rewrite Hof.
Qed.

Lemma list_urls_same_keys (e : env) (s : store) :
  same_keys s ->
  list_urls e s
  = (Ok (Json (PList (Z.of_nat (size (url_mappings s)))
                 ((fun c => (c, (host_url e ++ c)%string, clicks (stats_of s c)))
                    <$> live_codes s)) 200), s).
Proof.
  intros H. unfold list_urls, bind at 1. unfold get at 1. unfold bind at 1.
  fold (live_codes s). rewrite mapM_stats_present; [reflexivity|].
  apply Forall_forall. intros c Hc. apply same_keys_lookup; [exact H|].
  by apply elem_of_live_codes.
Qed.

Lemma perform_same_keys (s : store) (o : operation) :
  same_keys s -> same_keys (perform s o).
Proof.
  intros H. destruct o as [e data|code|e code|e|now]; cbn [perform].
  - by apply shorten_same_keys.
  - by apply redirect_same_keys.
  - by rewrite get_stats_same_keys.
  - by rewrite list_urls_same_keys.
  - by apply cleanup_same_keys.
Qed.

(** C9. Every store operation keeps the key sets of [url_mappings] and
    [url_stats] equal, also when it raises; so they are equal after any
    sequence of operations from the empty store. *)
Theorem tables_have_same_keys :
  (forall s o, same_keys s -> same_keys (perform s o))
  /\ (forall ops, same_keys (foldl perform empty_store ops)).
Proof.
  split; [exact perform_same_keys|].
  intros ops. induction ops as [|o ops IH] using rev_ind.
  - reflexivity.
  - rewrite foldl_app. cbn. by apply perform_same_keys.
Qed.

Lemma tables_have_same_keys_witness :
  same_keys (perform Sample.one_hour (Resolve "abc123"))
  /\ same_keys (perform Sample.one_hour (Sweep Sample.hour)).
Proof.
  split; apply tables_have_same_keys; vm_compute; reflexivity.
Defined.

(** A request is the sweep followed, when it returns, by the view; so
    every reachable store has equal key sets. *)
Lemma handle_same_keys (e : env) (r : request) (s : store) :
  same_keys s -> same_keys (handle e r s).2.
Proof.
  intros H. unfold handle, bind, before_request.
  pose proof (cleanup_same_keys (clock_sweep e) s H) as Hc.
  destruct (cleanup_expired_urls (clock_sweep e) s) as [[[]| |] s1];
    cbn in Hc |- *; [|exact Hc..].
  destruct r as [data|code|code| |]; cbn [view].
  - by apply shorten_same_keys.
  - by apply redirect_same_keys.
  - by rewrite get_stats_same_keys.
  - by rewrite list_urls_same_keys.
  - exact Hc.
Qed.

Lemma reachable_same_keys (s : store) : reachable s -> same_keys s.
Proof.
  intros [reqs ->]. unfold run.
  induction reqs as [|[e r] reqs IH] using rev_ind; [reflexivity|].
  rewrite foldl_app. cbn. by apply handle_same_keys.
Qed.

(** ** Concurrent requests for one code *)

Module ConcurrentFacts.
Import Concurrent.

Lemma count_if_insert (f : pc -> bool) (l : list pc) (i : nat) (p p' : pc) :
  l !! i = Some p ->
  count_if f (<[i := p']> l) = count_if f l - Z.b2z (f p) + Z.b2z (f p').
Proof.
  unfold count_if. revert i. induction l as [|x l IH]; intros i Hi.
  - destruct i; discriminate.
  - destruct i as [|i]; cbn in Hi.
    + change (<[0%nat := p']> (x :: l)) with (p' :: l).
      injection Hi as ->. rewrite !filter_cons.
      destruct (decide (f p' = true)) as [Hp'|Hp'],
               (decide (f p = true)) as [Hp|Hp]; cbn [length].
      all: try (apply not_true_is_false in Hp').
      all: try (apply not_true_is_false in Hp).
      all: rewrite Hp, Hp'; cbn; lia.
    + change (<[S i := p']> (x :: l)) with (x :: <[i := p']> l).
      specialize (IH i Hi). rewrite !filter_cons.
      destruct (decide (f x = true)); cbn [length]; lia.
Qed.

Lemma expired_codes_outcomes (now : Z) (items : list (string * stats)) :
  expired_codes now items
  = Ok (filter (fun p => due now p.2 = true) items).*1
  \/ expired_codes now items = Raise TypeError.
Proof.
  destruct (decide (Forall (fun p => holds_str p.2 = false) items)) as [H|H].
  - left. by apply expired_codes_ok.
  - right. apply not_Forall_Exists in H; [|intros ?; apply _].
    apply expired_codes_raises.
    eapply Exists_impl; [exact H|]. intros p Hp. unfold compose in Hp.
    destruct (holds_str p.2); [reflexivity | by destruct Hp].
Qed.

Section Invariant.
Variables (target url : string) (prior : Z).

Local Abbreviation Inv := (Inv target url prior).
Local Abbreviation harmless := (harmless target url).

(** Thread [i] moves from [p] to [p'], leaving the store [s'] and the
    lock [l']. *)
Lemma inv_move (sys : system) (i : nat) (p p' : pc) (s' : store)
    (l' : option nat) (st' : stats) :
  Inv sys ->
  threads sys !! i = Some p ->
  url_mappings s' !! target = Some url ->
  url_stats s' !! target = Some st' ->
  expires_at st' = PNone ->
  clicks st' = prior + count_if counted (threads sys)
               - Z.b2z (counted p) + Z.b2z (counted p') ->
  (holds_lock p' = true -> l' = Some i) ->
  (forall j q, j <> i -> threads sys !! j = Some q -> holds_lock q = true ->
               l' = Some j) ->
  (forall n, p' = Write n -> clicks st' = n) ->
  (forall j n, j <> i -> threads sys !! j = Some (Write n) -> clicks st' = n) ->
  harmless p' ->
  Inv (System s' l' (<[i := p']> (threads sys))).
Proof.
  intros HI Hi Hu Hst Hex Hcl Hl Hlo Hw Hwo Hh.
  assert (Hlt : (i < length (threads sys))%nat) by (by eapply lookup_lt_Some).
  split; cbn [shared lock threads].
  - exact Hu.
  - exists st'. split; [exact Hst|]. split; [exact Hex|].
    rewrite (count_if_insert _ _ _ _ _ Hi). lia.
  - intros j q Hj Hq. destruct (decide (j = i)) as [->|Hne].
    + rewrite list_lookup_insert_eq in Hj by exact Hlt.
      injection Hj as <-. auto.
    + rewrite list_lookup_insert_ne in Hj by done. eauto.
  - intros j n Hj. unfold clicks_of. rewrite Hst. cbn. f_equal.
    destruct (decide (j = i)) as [->|Hne].
    + rewrite list_lookup_insert_eq in Hj by exact Hlt.
      injection Hj as Hj. by apply Hw.
    + rewrite list_lookup_insert_ne in Hj by done. eauto.
  - intros j q Hj. destruct (decide (j = i)) as [->|Hne].
    + rewrite list_lookup_insert_eq in Hj by exact Hlt.
      by injection Hj as <-.
    + rewrite list_lookup_insert_ne in Hj by done.
      eapply (inv_harmless HI); eauto.
Qed.

(** Who else holds the lock when thread [i] does: nobody. *)
Lemma lock_exclusive (sys : system) (i j : nat) (p q : pc) :
  Inv sys ->
  threads sys !! i = Some p -> holds_lock p = true ->
  threads sys !! j = Some q -> holds_lock q = true ->
  j = i.
Proof.
  intros HI Hi Hp Hj Hq.
  pose proof (inv_lock HI i p Hi Hp) as H1.
  pose proof (inv_lock HI j q Hj Hq) as H2. congruence.
Qed.

Lemma target_not_due (now : Z) (s : store) (st : stats) :
  url_stats s !! target = Some st -> expires_at st = PNone ->
  target ∉ (filter (fun p => due now p.2 = true) (map_to_list (url_stats s))).*1.
Proof.
  intros Hst Hex Hin. apply due_codes_swept in Hin.
  unfold swept in Hin. rewrite Hst in Hin. unfold due in Hin.
  rewrite Hex in Hin. discriminate.
Qed.

Ltac lock_kept HI :=
  intros ? ? ? ? ?; eapply (inv_lock HI); eassumption.
Ltac lock_freed HI Hi :=
  let j := fresh "j" in let q := fresh "q" in
  let Hne := fresh "Hne" in let Hj := fresh "Hj" in let Hq := fresh "Hq" in
  intros j q Hne Hj Hq; exfalso; apply Hne;
  eapply (lock_exclusive _ _ _ _ _ HI Hi); [reflexivity | exact Hj | exact Hq].
Ltac write_kept HI Hst :=
  let Hw := fresh "Hw" in
  intros ? ? ? Hw; apply (inv_write HI) in Hw;
  unfold clicks_of in Hw; rewrite Hst in Hw; cbn in Hw; congruence.

Ltac lock_taken HI Hl :=
  let j := fresh "j" in let q := fresh "q" in
  let Hj := fresh "Hj" in let Hq := fresh "Hq" in
  intros j q _ Hj Hq; pose proof (inv_lock HI j q Hj Hq); congruence.
Ltac lock_mine HI Hi :=
  intros _; eapply (inv_lock HI); [exact Hi | reflexivity].
Ltac side HI Hi Hst :=
  try solve [ reflexivity | lia | discriminate | intros _; reflexivity
            | lock_mine HI Hi | lock_kept HI | lock_freed HI Hi
            | write_kept HI Hst ].

(** Every step of every thread keeps the invariant. *)
Lemma step_inv (sys : system) (i : nat) :
  Inv sys -> Inv (step target i sys).
Proof.
  intros HI. unfold step.
  destruct (threads sys !! i) as [p|] eqn:Hi; [|exact HI].
  pose proof (inv_url HI) as Hu.
  destruct (inv_stats HI) as (st & Hst & Hex & Hcl).
  pose proof (inv_harmless HI i p Hi) as Hh.
  destruct p as [now|codes|[|c rest]|c rest| | | | |n| | |r].
  - (* Scan *)
    destruct (expired_codes_outcomes now (map_to_list (url_stats (shared sys))))
      as [Hc|Hc]; rewrite Hc.
    + eapply (inv_move sys i _ _ _ _ st HI Hi); eauto; cbn; side HI Hi Hst.
      by eapply target_not_due.
    + eapply (inv_move sys i _ _ _ _ st HI Hi); eauto; cbn; side HI Hi Hst.
      by right.
  - (* SweepAcquire *)
    destruct (lock sys) as [holder|] eqn:Hl; [exact HI|].
    eapply (inv_move sys i _ _ _ _ st HI Hi); eauto; cbn; side HI Hi Hst.
    lock_taken HI Hl.
  - (* SweepPop, nothing left *)
    eapply (inv_move sys i _ _ _ _ st HI Hi); eauto; cbn; side HI Hi Hst.
  - (* SweepPop, one code *)
    cbn in Hh. apply not_elem_of_cons in Hh as [Hne Hrest].
    eapply (inv_move sys i _ _ _ _ st HI Hi); eauto; cbn; side HI Hi Hst.
    + by rewrite lookup_delete_ne.
    + split; [congruence | exact Hrest].
  - (* SweepPopStats *)
    cbn in Hh. destruct Hh as [Hne Hrest].
    eapply (inv_move sys i _ _ _ _ st HI Hi); eauto; cbn; side HI Hi Hst.
    by rewrite lookup_delete_ne.
  - (* SweepRelease *)
    eapply (inv_move sys i _ _ _ _ st HI Hi); eauto; cbn; side HI Hi Hst.
  - (* Member *)
    rewrite Hu.
    eapply (inv_move sys i _ _ _ _ st HI Hi); eauto; cbn; side HI Hi Hst.
  - (* Acquire *)
    destruct (lock sys) as [holder|] eqn:Hl; [exact HI|].
    eapply (inv_move sys i _ _ _ _ st HI Hi); eauto; cbn; side HI Hi Hst.
    lock_taken HI Hl.
  - (* Load *)
    rewrite (stats_getitem_present _ _ _ Hst).
    eapply (inv_move sys i _ _ _ _ st HI Hi); eauto; cbn; side HI Hi Hst.
    by intros ? [= ->].
  - (* Write *)
    rewrite Hst.
    pose proof (inv_write HI i n Hi) as Hn.
    unfold clicks_of in Hn. rewrite Hst in Hn. injection Hn as Hn.
    eapply (inv_move sys i _ _ _ _
              (Stats (n + 1) (created_at st) (expires_at st)) HI Hi);
      eauto; cbn; side HI Hi Hst.
    + apply lookup_insert_eq.
    + intros j m Hne Hj. exfalso. apply Hne.
      eapply (lock_exclusive _ _ _ _ _ HI Hi); [reflexivity | exact Hj | reflexivity].
  - (* Release *)
    eapply (inv_move sys i _ _ _ _ st HI Hi); eauto; cbn; side HI Hi Hst.
  - (* Return *)
    rewrite Hu.
    eapply (inv_move sys i _ _ _ _ st HI Hi); eauto; cbn; side HI Hi Hst.
    by left.
  - (* Done *)
    exact HI.
Qed.

Lemma run_schedule_inv (schedule : list nat) (sys : system) :
  Inv sys -> Inv (run_schedule target schedule sys).
Proof.
  revert sys. induction schedule as [|i schedule IH]; intros sys HI; [exact HI|].
  cbn. apply IH, step_inv, HI.
Qed.




Lemma start_inv (s : store) (st : stats) (clocks : list Z) :
  url_mappings s !! target = Some url ->
  url_stats s !! target = Some st ->
  expires_at st = PNone ->
  clicks st = prior ->
  Inv (start s clocks).
Proof.
  intros Hu Hst Hex Hcl.
  assert (Hscan : forall i p, (Scan <$> clocks) !! i = Some p ->
                              exists now, p = Scan now).
  { intros i p Hp. rewrite list_lookup_fmap in Hp.
    destruct (clocks !! i) as [now|]; [|discriminate].
    injection Hp as <-. by eexists. }
  split; cbn [start shared lock threads].
  - exact Hu.
  - exists st. split; [exact Hst|]. split; [exact Hex|].
    assert (Hz : count_if counted (Scan <$> clocks) = 0).
    { unfold count_if. clear Hscan. induction clocks as [|c cs IH]; [reflexivity|].
      rewrite fmap_cons, filter_cons_False; [exact IH | discriminate]. }
    lia.
  - intros i p Hp Hl. destruct (Hscan i p Hp) as [now ->]. discriminate.
  - intros i n Hp. destruct (Hscan i _ Hp) as [now [=]].
  - intros i p Hp. destruct (Hscan i p Hp) as [now ->]. exact I.
Qed.

End Invariant.

End ConcurrentFacts.



(** The run of the witness: three interleaved requests, three redirects,
    three clicks; the lock is free at the end. *)
Example three_threads :
  let final :=
    Concurrent.run_schedule "abc123" (Sample.interleaved 13)
      (Concurrent.start Sample.zero_ttl [1; 2; 3]) in
  Concurrent.threads final
  = replicate 3 (Concurrent.Done (Ok (Redirect "https://temp.com" 302)))
  /\ Concurrent.clicks_of (Concurrent.shared final) "abc123" = Some 3
  /\ Concurrent.lock final = None.
Proof. vm_compute. repeat split. Qed.

(** Half way through that run one thread is between its read and its write
    of the counter, one waits for the lock and one has not reached it. *)
Example three_threads_midway :
  let sys :=
    Concurrent.run_schedule "abc123" (Sample.interleaved 6)
      (Concurrent.start Sample.zero_ttl [1; 2; 3]) in
  Concurrent.threads sys
  = [Concurrent.Member; Concurrent.Write 0; Concurrent.Acquire]
  /\ Concurrent.lock sys = Some 1%nat.
Proof. vm_compute. repeat split. Qed.

(** ** Reachable stores *)

(** A request whose sweep returns goes on with its view. *)
Lemma handle_after_sweep (e : env) (r : request) (s s1 : store) :
  before_request e s = (Ok tt, s1) -> handle e r s = view e r s1.
Proof. intros H. unfold handle, bind. by rewrite H. Qed.

Lemma cleanup_well_stored (now : Z) (s : store) :
  well_stored s -> well_stored (cleanup_expired_urls now s).2.
Proof.
  intros H. rewrite cleanup_unfold.
  destruct (expired_codes _ _) as [codes| |]; cbn; [|exact H..].
  intros code st Hst. rewrite pop_codes_stats in Hst.
  destruct (decide (code ∈ codes)); [discriminate|]. by eapply H.
Qed.

Lemma shorten_well_stored (e : env) (data : shorten_body) (s : store) :
  well_stored s -> well_stored (shorten_url e data s).2.
Proof.
  intros H. destruct data as [[u|] ttl]; [|exact H].
  destruct (is_valid_url (Str.strip u)) eqn:Hv.
  - rewrite (shorten_valid _ _ _ _ Hv).
    destruct (unique_code _ _) as [c| |]; cbn; [|exact H..].
    intros code st Hst. unfold inserted in Hst. cbn [url_stats] in Hst.
    destruct (decide (code = c)) as [->|Hne].
    + rewrite lookup_insert_eq in Hst. injection Hst as <-.
      unfold new_stats, stored_expiry. cbn. by destruct (ttl_given ttl).
    + rewrite lookup_insert_ne in Hst by done. by eapply H.
  - by rewrite (shorten_invalid _ _ _ _ Hv).
Qed.

Lemma redirect_well_stored (code : string) (s : store) :
  well_stored s -> well_stored (redirect_to_url code s).2.
Proof.
  intros H. destruct (url_mappings s !! code) as [url|] eqn:Hu.
  - rewrite (redirect_present _ _ _ Hu). cbn.
    intros c st Hst. cbn [url_stats] in Hst.
    destruct (decide (c = code)) as [->|Hne].
    + rewrite lookup_insert_eq in Hst. injection Hst as <-. cbn.
      unfold stats_of. destruct (url_stats s !! code) as [st|] eqn:Hs; cbn.
      * by eapply H.
      * discriminate.
    + rewrite lookup_insert_ne in Hst by done. by eapply H.
  - by rewrite (redirect_absent _ _ Hu).
Qed.

Lemma handle_well_stored (e : env) (r : request) (s : store) :
  same_keys s -> well_stored s -> well_stored (handle e r s).2.
Proof.
  intros Hk Hw. unfold handle, bind, before_request.
  pose proof (cleanup_same_keys (clock_sweep e) s Hk) as Hk1.
  pose proof (cleanup_well_stored (clock_sweep e) s Hw) as Hw1.
  destruct (cleanup_expired_urls (clock_sweep e) s) as [[[]| |] s1];
    cbn in Hk1, Hw1 |- *; [|exact Hw1..].
  destruct r as [data|code|code| |]; cbn [view].
  - by apply shorten_well_stored.
  - by apply redirect_well_stored.
  - by rewrite get_stats_same_keys.
  - by rewrite list_urls_same_keys.
  - exact Hw1.
Qed.

Lemma reachable_well_stored (s : store) : reachable s -> well_stored s.
Proof.
  intros [reqs ->]. unfold run.
  assert (H : same_keys (foldl (fun s er => (handle er.1 er.2 s).2) empty_store reqs)
              /\ well_stored
                   (foldl (fun s er => (handle er.1 er.2 s).2) empty_store reqs));
    [|exact (proj2 H)].
  induction reqs as [|[e r] reqs [IH1 IH2]] using rev_ind.
  - split; [reflexivity|]. intros code st Hst. cbn in Hst.
    by rewrite lookup_empty in Hst.
  - rewrite foldl_app. cbn. split.
    + by apply handle_same_keys.
    + by apply handle_well_stored.
Qed.

Lemma store_eq (s s' : store) :
  (forall code, url_mappings s' !! code = url_mappings s !! code) ->
  (forall code, url_stats s' !! code = url_stats s !! code) ->
  s' = s.
Proof.
  destruct s, s'. cbn. intros Hm Hs. f_equal; by apply map_eq.
Qed.

(** On a reachable store the sweep removes nothing: it returns with the
    store as it was, or raises with the store as it was. *)
Lemma reachable_sweep_removes_nothing (now : Z) (s : store) :
  reachable s ->
  cleanup_expired_urls now s = (Ok tt, s)
  \/ cleanup_expired_urls now s = (Raise TypeError, s).
Proof.
  intros Hr. pose proof (reachable_well_stored s Hr) as Hw.
  destruct (cleanup_outcomes now s) as [[s' Hs']|Hraise]; [left | by right].
  rewrite Hs'. f_equal.
  assert (Hno : forall code, swept now s code = false).
  { intros code. unfold swept. destruct (url_stats s !! code) as [st|] eqn:Hst;
      [|reflexivity].
    rewrite cleanup_unfold in Hs'.
    destruct (expired_codes now (map_to_list (url_stats s))) as [codes| |] eqn:Hc;
      [|discriminate..].
    pose proof (expired_codes_inv _ _ _ Hc) as Hall.
    rewrite Forall_forall in Hall.
    specialize (Hall (code, st) (proj2 (elem_of_map_to_list _ _ _) Hst)).
    cbn in Hall. unfold holds_str in Hall. unfold due.
    destruct (expires_at st) as [|t|t] eqn:Hex; [reflexivity | discriminate |].
    by destruct (Hw code st Hst t). }
  apply store_eq; intros code;
    destruct (cleanup_result _ _ _ Hs' code) as [Hm Hst];
    rewrite (Hno code) in Hm, Hst; assumption.
Qed.

(** ** One thread on its own is the sequential request *)

Section Solo.
Import Concurrent.
Variables (target : string) (i : nat) (l : list pc).
Hypothesis Hi : (i < length l)%nat.

Local Abbreviation at_pc p := (<[i := p]> l).

Lemma lookup_at (p : pc) : at_pc p !! i = Some p.
Proof. by apply list_lookup_insert_eq. Qed.

Lemma at_at (p q : pc) : <[i := q]> (at_pc p) = at_pc q.
Proof. apply list_insert_insert_eq. Qed.

Lemma run_cons (j : nat) (schedule : list nat) (sys : system) :
  run_schedule target (j :: schedule) sys
  = run_schedule target schedule (step target j sys).
Proof. reflexivity. Qed.

Lemma run_app (a b : list nat) (sys : system) :
  run_schedule target (a ++ b) sys
  = run_schedule target b (run_schedule target a sys).
Proof. apply foldl_app. Qed.

Ltac solo :=
  unfold step; cbn [threads shared lock]; rewrite lookup_at;
  unfold goto, with_lock, with_store; cbn [threads shared lock];
  rewrite ?at_at.

Lemma solo_scan (now : Z) (s : store) (lk : option nat) :
  step target i (System s lk (at_pc (Scan now)))
  = System s lk
      (at_pc (match expired_codes now (map_to_list (url_stats s)) with
              | Ok codes => SweepAcquire codes
              | Raise e => Done (Raise e)
              | Spin => Done Spin
              end)).
Proof.
  solo. destruct (expired_codes _ _); cbn [threads shared lock];
    by rewrite ?at_at.
Qed.

Lemma solo_sweep_acquire (codes : list string) (s : store) :
  step target i (System s None (at_pc (SweepAcquire codes)))
  = System s (Some i) (at_pc (SweepPop codes)).
Proof. by solo. Qed.

Lemma solo_pop_nil (s : store) (lk : option nat) :
  step target i (System s lk (at_pc (SweepPop [])))
  = System s lk (at_pc SweepRelease).
Proof. by solo. Qed.

Lemma solo_pop_cons (c : string) (rest : list string) (s : store) (lk : option nat) :
  step target i (System s lk (at_pc (SweepPop (c :: rest))))
  = System (Store (delete c (url_mappings s)) (url_stats s)) lk
      (at_pc (SweepPopStats c rest)).
Proof. by solo. Qed.

Lemma solo_pop_stats (c : string) (rest : list string) (s : store) (lk : option nat) :
  step target i (System s lk (at_pc (SweepPopStats c rest)))
  = System (Store (url_mappings s) (delete c (url_stats s))) lk
      (at_pc (SweepPop rest)).
Proof. by solo. Qed.

Lemma solo_sweep_release (s : store) (lk : option nat) :
  step target i (System s lk (at_pc SweepRelease)) = System s None (at_pc Member).
Proof. by solo. Qed.

Lemma solo_check (s : store) (lk : option nat) :
  step target i (System s lk (at_pc Member))
  = System s lk
      (at_pc (match url_mappings s !! target with
              | Some _ => Acquire
              | None => Done (Ok not_found)
              end)).
Proof.
  solo. destruct (url_mappings s !! target); cbn [threads shared lock];
    by rewrite ?at_at.
Qed.

Lemma solo_acquire (s : store) :
  step target i (System s None (at_pc Acquire)) = System s (Some i) (at_pc Load).
Proof. by solo. Qed.

Lemma solo_load (s : store) (lk : option nat) :
  step target i (System s lk (at_pc Load))
  = System (stats_getitem target s).2 lk
      (at_pc (Write (clicks (stats_of s target)))).
Proof.
  solo. rewrite stats_getitem_unfold. cbn [threads shared lock snd].
  by rewrite ?at_at.
Qed.

Lemma solo_write (n : Z) (s : store) (lk : option nat) (st : stats) :
  url_stats s !! target = Some st ->
  step target i (System s lk (at_pc (Write n)))
  = System (Store (url_mappings s)
              (<[target := Stats (n + 1) (created_at st) (expires_at st)]>
                 (url_stats s))) lk (at_pc Release).
Proof.
  intros Hst. solo. rewrite Hst. cbn [threads shared lock]. by rewrite ?at_at.
Qed.

Lemma solo_release (s : store) (lk : option nat) :
  step target i (System s lk (at_pc Release)) = System s None (at_pc Return).
Proof. by solo. Qed.

Lemma solo_return (s : store) (lk : option nat) :
  step target i (System s lk (at_pc Return))
  = System s lk
      (at_pc (Done (match url_mappings s !! target with
                    | Some url => Ok (Redirect url 302)
                    | None => Raise KeyError
                    end))).
Proof.
  solo. destruct (url_mappings s !! target); cbn [threads shared lock];
    by rewrite ?at_at.
Qed.

(** The loop of the sweep pops the codes one dictionary at a time. *)
Lemma solo_pops (codes : list string) (s : store) (lk : option nat) :
  run_schedule target (replicate (2 * length codes) i)
    (System s lk (at_pc (SweepPop codes)))
  = System (foldl pop_code s codes) lk (at_pc (SweepPop [])).
Proof.
  revert s. induction codes as [|c codes IH]; intros s; [reflexivity|].
  replace (2 * length (c :: codes))%nat with (S (S (2 * length codes)))
    by (cbn [length]; lia).
  cbn [replicate]. rewrite !run_cons, solo_pop_cons, solo_pop_stats.
  cbn [url_mappings url_stats]. apply IH.
Qed.

(** The increment leaves the store [incr_clicks] leaves. *)
Lemma load_write_is_incr (s : store) :
  exists st,
    url_stats (stats_getitem target s).2 !! target = Some st
    /\ Store (url_mappings (stats_getitem target s).2)
         (<[target := Stats (clicks (stats_of s target) + 1) (created_at st)
                        (expires_at st)]>
            (url_stats (stats_getitem target s).2))
       = (incr_clicks target s).2.
Proof.
  rewrite incr_clicks_unfold, stats_getitem_unfold. unfold stats_of.
  destruct (url_stats s !! target) as [st|] eqn:Hst; cbn.
  - exists st. by rewrite Hst.
  - exists default_stats. rewrite lookup_insert_eq. split; [reflexivity|].
    by rewrite insert_insert_eq.
Qed.

(** Thread [i], moving alone from the start of its request with the lock
    free, ends with the answer and the store of the sequential request
    and leaves the lock free. *)
Theorem solo_run_is_handle (e : env) (s : store) :
  exists schedule,
    Forall (fun j => j = i) schedule
    /\ run_schedule target schedule (System s None (at_pc (Scan (clock_sweep e))))
       = System (handle e (GetCode target) s).2 None
           (at_pc (Done (handle e (GetCode target) s).1)).
Proof.
  unfold handle, bind, before_request. rewrite cleanup_unfold.
  destruct (expired_codes (clock_sweep e) (map_to_list (url_stats s)))
    as [codes|ex|] eqn:Hc.
  - set (s2 := foldl pop_code s codes). cbn [view].
    destruct (url_mappings s2 !! target) as [url|] eqn:Hu.
    + exists ([i; i] ++ replicate (2 * length codes) i
              ++ [i; i; i; i; i; i; i; i])%list.
      split.
      { repeat first [apply Forall_app; split | apply Forall_cons; split
                     | apply Forall_nil | reflexivity].
        apply Forall_forall. intros j Hj. by apply elem_of_replicate in Hj as [-> _]. }
      rewrite !run_app, !run_cons. cbn [run_schedule foldl].
      rewrite solo_scan, Hc, solo_sweep_acquire, solo_pops. fold s2.
      rewrite solo_pop_nil, solo_sweep_release, solo_check, Hu, solo_acquire,
        solo_load.
      destruct (load_write_is_incr s2) as (st & Hst & Heq).
      rewrite (solo_write _ _ _ _ Hst), Heq, solo_release, solo_return.
      rewrite (redirect_present _ _ _ Hu), incr_clicks_unfold.
      cbn [fst snd url_mappings]. by rewrite Hu.
    + exists ([i; i] ++ replicate (2 * length codes) i ++ [i; i; i])%list.
      split.
      { repeat first [apply Forall_app; split | apply Forall_cons; split
                     | apply Forall_nil | reflexivity].
        apply Forall_forall. intros j Hj. by apply elem_of_replicate in Hj as [-> _]. }
      rewrite !run_app, !run_cons. cbn [run_schedule foldl].
      rewrite solo_scan, Hc, solo_sweep_acquire, solo_pops. fold s2.
      rewrite solo_pop_nil, solo_sweep_release, solo_check, Hu.
      by rewrite (redirect_absent _ _ Hu).
  - exists [i]. split; [by constructor|].
    rewrite run_cons. cbn [run_schedule foldl]. by rewrite solo_scan, Hc.
  - exists [i]. split; [by constructor|].
    rewrite run_cons. cbn [run_schedule foldl]. by rewrite solo_scan, Hc.
Qed.

End Solo.




(** * Further properties of the code *)

(** ** The code generator *)

Module GenFacts.
Import Gen.

Lemma choice_in_range (i : nat) :
  (i < 62)%nat -> exists a, choice i = Some a /\ is_alnum a = true.
Proof.
  intros Hi.
  assert (H : forallb (fun j => match choice j with
                                | Some a => is_alnum a
                                | None => false
                                end) (seq 0 62) = true) by (vm_compute; reflexivity).
  rewrite forallb_forall in H. specialize (H i).
  destruct (choice i) as [a|]; [exists a; split; [reflexivity|]|].
  - apply H. apply in_seq. lia.
  - exfalso. assert (false = true) by (apply H; apply in_seq; lia). discriminate.
Qed.

Lemma choice_out_of_range (i : nat) : (62 <= i)%nat -> choice i = None.
Proof.
  intros Hi. unfold choice.
  replace i with (62 + (i - 62))%nat by lia. reflexivity.
Qed.

Lemma choice_injective (i j : nat) (a : ascii) :
  choice i = Some a -> choice j = Some a -> i = j.
Proof.
  intros Hci Hcj.
  assert (Hi : (i < 62)%nat).
  { destruct (le_lt_dec 62 i) as [Hge|]; [|assumption].
    rewrite (choice_out_of_range _ Hge) in Hci. discriminate. }
  assert (Hj : (j < 62)%nat).
  { destruct (le_lt_dec 62 j) as [Hge|]; [|assumption].
    rewrite (choice_out_of_range _ Hge) in Hcj. discriminate. }
  assert (H : forallb (fun x =>
                forallb (fun y =>
                  match choice x, choice y with
                  | Some b, Some c => implb (Ascii.eqb b c) (Nat.eqb x y)
                  | _, _ => true
                  end) (seq 0 62)) (seq 0 62) = true) by (vm_compute; reflexivity).
  rewrite forallb_forall in H.
  assert (Hx : In i (seq 0 62)) by (apply in_seq; lia).
  specialize (H i Hx). rewrite forallb_forall in H.
  assert (Hy : In j (seq 0 62)) by (apply in_seq; lia).
  specialize (H j Hy). rewrite Hci, Hcj, Ascii.eqb_refl in H. cbn in H.
  by apply Nat.eqb_eq.
Qed.

Lemma generate_in_range (picks : list nat) :
  Forall (fun i => (i < 62)%nat) picks ->
  exists code,
    generate_short_code picks = Some code
    /\ String.length code = length picks
    /\ all_alnum code = true.
Proof.
  induction 1 as [|i picks Hi _ (code & Hc & Hlen & Hal)].
  - exists EmptyString. auto.
  - destruct (choice_in_range i Hi) as (a & Ha & Hal').
    exists (String a code). cbn [generate_short_code String.length all_alnum].
    rewrite Ha, Hc, Hlen, Hal, Hal'. auto.
Qed.

Lemma generate_injective (picks picks' : list nat) (code : string) :
  generate_short_code picks = Some code ->
  generate_short_code picks' = Some code ->
  picks = picks'.
Proof.
  revert picks' code.
  induction picks as [|i picks IH]; intros [|j picks'] code;
    cbn [generate_short_code].
  - reflexivity.
  - intros [= <-] H.
    destruct (choice j), (generate_short_code picks'); discriminate H.
  - intros H [= <-].
    destruct (choice i), (generate_short_code picks); discriminate H.
  - destruct (choice i) as [a|] eqn:Hi; [|discriminate].
    destruct (generate_short_code picks) as [c|] eqn:Hc; [|discriminate].
    intros [= <-].
    destruct (choice j) as [b|] eqn:Hj; [|discriminate].
    destruct (generate_short_code picks') as [c'|] eqn:Hc'; [|discriminate].
    intros [= <- <-]. f_equal.
    + by eapply choice_injective.
    + by eapply IH.
Qed.

End GenFacts.

(** X1. The generator, given in-range indices, returns a code with one
    alphanumeric character per index; six indices give a code of the
    default form. Different index sequences give different codes, and an
    index outside the alphabet gives no code. *)
Theorem generate_short_code_spec (picks : list nat) :
  Forall (fun i => (i < 62)%nat) picks ->
  (exists code,
     Gen.generate_short_code picks = Some code
     /\ String.length code = length picks
     /\ Gen.all_alnum code = true
     /\ (length picks = 6%nat -> Gen.is_short_code code = true))
  /\ (forall picks' code,
        Gen.generate_short_code picks = Some code ->
        Gen.generate_short_code picks' = Some code -> picks = picks')
  /\ (forall i, (62 <= i)%nat -> Gen.generate_short_code (i :: picks) = None).
Proof.
  intros Hin. split; [|split].
  - destruct (GenFacts.generate_in_range picks Hin) as (code & Hc & Hlen & Hal).
    exists code. repeat split; try assumption.
    intros H6. unfold Gen.is_short_code. rewrite Hlen, H6, Hal. reflexivity.
  - intros picks' code. apply GenFacts.generate_injective.
  - intros i Hi. cbn [Gen.generate_short_code].
    by rewrite (GenFacts.choice_out_of_range _ Hi).
Qed.

Lemma generate_short_code_spec_witness :
  exists code,
    Gen.generate_short_code [0; 27; 61; 52; 25; 26]%nat = Some code
    /\ String.length code = length [0; 27; 61; 52; 25; 26]%nat
    /\ Gen.all_alnum code = true
    /\ (length [0; 27; 61; 52; 25; 26]%nat = 6%nat -> Gen.is_short_code code = true).
Proof.
  apply (generate_short_code_spec [0; 27; 61; 52; 25; 26]%nat).
  repeat constructor.
Defined.

Example generate_example :
  Gen.generate_short_code [0; 27; 61; 52; 25; 26]%nat = Some "aB90zA".
Proof. reflexivity. Qed.

(** ** What a view does to [url_mappings] *)

Lemma stats_getitem_mappings (code : string) (s : store) :
  url_mappings (stats_getitem code s).2 = url_mappings s.
Proof.
  rewrite stats_getitem_unfold. cbn. by destruct (url_stats s !! code).
Qed.

Lemma mapM_stats_mappings (host : string) (codes : list string) (s : store) :
  url_mappings
    (mapM (fun code =>
             st <- stats_getitem code ;;
             ret (code, (host ++ code)%string, clicks st)) codes s).2
  = url_mappings s.
Proof.
  revert s. induction codes as [|c codes IH]; intros s; [reflexivity|].
  cbn [mapM]. unfold bind at 1. unfold bind at 1.
  rewrite stats_getitem_unfold. unfold ret at 1. unfold bind at 1.
  specialize (IH (match url_stats s !! c with
                  | Some _ => s
                  | None => Store (url_mappings s)
                              (<[c := default_stats]> (url_stats s))
                  end)).
  destruct (mapM _ codes _) as [[urls| |] s1]; cbn in IH |- *; rewrite IH;
    by destruct (url_stats s !! c).
Qed.

Lemma list_urls_mappings (e : env) (s : store) :
  url_mappings (list_urls e s).2 = url_mappings s.
Proof.
  unfold list_urls, bind at 1. unfold get at 1. unfold bind at 1.
  pose proof (mapM_stats_mappings (host_url e) (map_to_list (url_mappings s)).*1 s)
    as H.
  destruct (mapM _ _ s) as [[urls| |] s1]; exact H.
Qed.

Lemma get_stats_mappings (e : env) (code : string) (s : store) :
  url_mappings (get_stats e code s).2 = url_mappings s.
Proof.
  destruct (url_mappings s !! code) as [url|] eqn:Hu.
  - rewrite (get_stats_present _ _ _ _ Hu). cbn zeta.
    destruct (is_active_at _ _); apply stats_getitem_mappings.
  - by rewrite (get_stats_absent _ _ _ Hu).
Qed.

Lemma redirect_mappings (code : string) (s : store) :
  url_mappings (redirect_to_url code s).2 = url_mappings s.
Proof.
  destruct (url_mappings s !! code) as [url|] eqn:Hu.
  - by rewrite (redirect_present _ _ _ Hu).
  - by rewrite (redirect_absent _ _ Hu).
Qed.

(** A view leaves [url_mappings] as it is, or adds one entry under a draw
    that was not a key. *)
Lemma view_mappings (e : env) (r : request) (s : store) :
  url_mappings (view e r s).2 = url_mappings s
  \/ exists c u,
       c ∈ draws e /\ url_mappings s !! c = None
       /\ (view e r s).1
          = Ok (Json (PShortened c (host_url e ++ c)%string u
                        (expires_at (stats_of (view e r s).2 c))) 201)
       /\ url_mappings (view e r s).2 = <[c := u]> (url_mappings s).
Proof.
  destruct r as [data|code|code| |]; cbn [view].
  - destruct data as [[u|] ttl]; [|by left].
    destruct (is_valid_url (Str.strip u)) eqn:Hv.
    + rewrite (shorten_valid _ _ _ _ Hv).
      destruct (unique_code (draws e) (url_mappings s)) as [c| |] eqn:Hc;
        [|by left..].
      destruct (unique_code_spec _ _ _ Hc) as (taken & rest & Heq & _ & Hnone).
      right. exists c, (Str.strip u). cbn [fst snd].
      split; [rewrite Heq; apply elem_of_app; right; left|].
      split; [exact Hnone|]. split; [|reflexivity].
      unfold inserted. by rewrite stats_of_insert.
    + rewrite (shorten_invalid _ _ _ _ Hv). by left.
  - left. apply redirect_mappings.
  - left. apply get_stats_mappings.
  - left. apply list_urls_mappings.
  - by left.
Qed.

(** The sweep only removes entries of [url_mappings]. *)
Lemma cleanup_mappings_subset (now : Z) (s : store) (code url : string) :
  url_mappings (cleanup_expired_urls now s).2 !! code = Some url ->
  url_mappings s !! code = Some url.
Proof.
  rewrite cleanup_unfold. destruct (expired_codes _ _) as [codes| |]; cbn; auto.
  rewrite pop_codes_mappings. by destruct (decide (code ∈ codes)).
Qed.

(** X2. When every draw of the generator is a code of six alphanumeric
    characters, a request keeps every key of [url_mappings] such a code,
    and the [short_code] of a 201 answer is one, with [short_url] the host
    URL followed by it. *)
Theorem short_codes_well_formed (e : env) (r : request) (s : store) :
  Forall (fun c => Gen.is_short_code c = true) (draws e) ->
  keys_are_codes s ->
  keys_are_codes (handle e r s).2
  /\ (forall c su ou ex,
        (handle e r s).1 = Ok (Json (PShortened c su ou ex) 201) ->
        Gen.is_short_code c = true /\ su = (host_url e ++ c)%string).
Proof.
  intros Hdraws Hkeys. rewrite Forall_forall in Hdraws.
  unfold handle, bind, before_request.
  assert (Hk1 : keys_are_codes (cleanup_expired_urls (clock_sweep e) s).2).
  { intros code url Hu. eapply Hkeys, cleanup_mappings_subset, Hu. }
  destruct (cleanup_expired_urls (clock_sweep e) s) as [[[]| |] s1];
    cbn [snd] in Hk1; cbn [fst snd]; [|split; [exact Hk1|discriminate]..].
  destruct (view_mappings e r s1) as [Heq|(c & u & Hin & Hnone & Hresp & Heq)].
  - split.
    + intros code url Hu. rewrite Heq in Hu. by eapply Hk1.
    + intros c su ou ex Hresp.
      destruct r as [data|code|code| |]; cbn [view] in Hresp, Heq.
      * destruct data as [[u|] ttl]; [|discriminate].
        destruct (is_valid_url (Str.strip u)) eqn:Hv.
        -- rewrite (shorten_valid _ _ _ _ Hv) in Hresp, Heq.
           destruct (unique_code (draws e) (url_mappings s1)) as [c'| |] eqn:Hc;
             [|discriminate..].
           destruct (unique_code_spec _ _ _ Hc) as (? & ? & _ & _ & Hnone).
           cbn [snd] in Heq. unfold inserted in Heq. cbn [url_mappings] in Heq.
           assert (Hl : <[c' := Str.strip u]> (url_mappings s1) !! c'
                        = url_mappings s1 !! c') by (by rewrite Heq).
           rewrite lookup_insert_eq, Hnone in Hl. discriminate.
        -- rewrite (shorten_invalid _ _ _ _ Hv) in Hresp. discriminate.
      * destruct (url_mappings s1 !! code) as [url|] eqn:Hu.
        -- rewrite (redirect_present _ _ _ Hu) in Hresp. discriminate.
        -- rewrite (redirect_absent _ _ Hu) in Hresp. discriminate.
      * destruct (url_mappings s1 !! code) as [url|] eqn:Hu.
        -- rewrite (get_stats_present _ _ _ _ Hu) in Hresp. cbn zeta in Hresp.
           destruct (is_active_at _ _); discriminate.
        -- rewrite (get_stats_absent _ _ _ Hu) in Hresp. discriminate.
      * unfold list_urls, bind at 1 in Hresp. unfold get at 1 in Hresp.
        unfold bind at 1 in Hresp.
        destruct (mapM _ _ s1) as [[urls| |] s2]; discriminate.
      * discriminate.
  - split.
    + intros code url Hu. rewrite Heq in Hu.
      destruct (decide (code = c)) as [->|Hne].
      * by apply Hdraws.
      * rewrite lookup_insert_ne in Hu by done. by eapply Hk1.
    + intros c' su ou ex Hresp'. rewrite Hresp in Hresp'.
      injection Hresp' as <- <- _ _. split; [|reflexivity].
      by apply Hdraws.
Qed.

Lemma short_codes_well_formed_witness :
  keys_are_codes
    (handle (Env 1 1 ["abc123"; "xyz789"] "h/")
       (PostShorten (ShortenBody (Some "http://b.example") None))
       Sample.zero_ttl).2
  /\ (forall c su ou ex,
        (handle (Env 1 1 ["abc123"; "xyz789"] "h/")
           (PostShorten (ShortenBody (Some "http://b.example") None))
           Sample.zero_ttl).1 = Ok (Json (PShortened c su ou ex) 201) ->
        Gen.is_short_code c = true /\ su = ("h/" ++ c)%string).
Proof.
  apply (short_codes_well_formed (Env 1 1 ["abc123"; "xyz789"] "h/")
           (PostShorten (ShortenBody (Some "http://b.example") None))
           Sample.zero_ttl).
  - repeat constructor.
  - intros code url Hu.
    destruct (decide (code = "abc123")) as [->|Hne]; [reflexivity|].
    unfold Sample.zero_ttl in Hu.
    assert (Hm : url_mappings
                   (handle (Sample.at_time 0)
                      (PostShorten (Sample.temp_body (Some (0 # 1)%Q)))
                      empty_store).2
                 = {[ "abc123" := "https://temp.com" ]})
      by (vm_compute; reflexivity).
    rewrite Hm, lookup_singleton_ne in Hu by congruence. discriminate.
Defined.

(** ** The health statistics *)

Lemma api_health_unfold (s : store) :
  api_health s = (Ok (Json (PHealth (active_urls s) (total_clicks s)) 200), s).
Proof. reflexivity. Qed.

Lemma sum_permutation (l l' : list Z) :
  l ≡ₚ l' -> foldr Z.add 0 l = foldr Z.add 0 l'.
Proof. induction 1; cbn; lia. Qed.

Lemma total_insert_fresh (m : gmap string stats) (code : string) (st : stats)
    (mp : gmap string string) (mp' : gmap string string) :
  m !! code = None ->
  total_clicks (Store mp' (<[code := st]> m)) = clicks st + total_clicks (Store mp m).
Proof.
  intros Hnone. unfold total_clicks. cbn [url_stats].
  rewrite (sum_permutation _ (clicks <$> ((code, st) :: map_to_list m).*2)).
  - reflexivity.
  - by rewrite (map_to_list_insert _ _ _ Hnone).
Qed.

Lemma total_insert_present (m : gmap string stats) (code : string) (old st : stats)
    (mp mp' : gmap string string) :
  m !! code = Some old ->
  total_clicks (Store mp' (<[code := st]> m))
  = total_clicks (Store mp m) - clicks old + clicks st.
Proof.
  intros Hold.
  rewrite <- (insert_delete_eq m code st).
  rewrite (total_insert_fresh (delete code m) code st mp mp')
    by apply lookup_delete_eq.
  rewrite <- (insert_delete_id m code old Hold) at 2.
  rewrite (total_insert_fresh (delete code m) code old mp mp)
    by apply lookup_delete_eq.
  lia.
Qed.

(** X3. The health statistics follow the operations, on a store whose two
    dictionaries have the same keys: reading them changes nothing; a
    Resolve that redirects adds one to [total_clicks] and leaves
    [active_urls]; a Resolve that reports NotFound leaves both; an Insert
    answered 201 adds one to [active_urls] and leaves [total_clicks]. *)
Theorem health_follows_operations (e : env) (s : store) :
  same_keys s ->
  (api_health s).2 = s
  /\ (forall code url,
        url_mappings s !! code = Some url ->
        api_health (redirect_to_url code s).2
        = (Ok (Json (PHealth (active_urls s) (total_clicks s + 1)) 200),
           (redirect_to_url code s).2))
  /\ (forall code,
        url_mappings s !! code = None ->
        (api_health (redirect_to_url code s).2).1 = (api_health s).1)
  /\ (forall data c su ou ex,
        (shorten_url e data s).1 = Ok (Json (PShortened c su ou ex) 201) ->
        api_health (shorten_url e data s).2
        = (Ok (Json (PHealth (active_urls s + 1) (total_clicks s)) 200),
           (shorten_url e data s).2)).
Proof.
  intros Hk. split; [reflexivity|]. split; [|split].
  - intros code url Hu.
    destruct (same_keys_lookup s code Hk) as [st Hst]; [by eexists|].
    rewrite (redirect_present _ _ _ Hu). cbn [snd]. rewrite api_health_unfold.
    assert (Ht : total_clicks
                   (Store (url_mappings s)
                      (<[code := Stats (clicks (stats_of s code) + 1)
                                   (created_at (stats_of s code))
                                   (expires_at (stats_of s code))]>
                         (url_stats s)))
                 = total_clicks s + 1).
    { rewrite (total_insert_present _ _ st _ (url_mappings s) _ Hst).
      unfold stats_of. rewrite Hst. cbn. destruct s. cbn. lia. }
    by rewrite Ht.
  - intros code Hu. by rewrite (redirect_absent _ _ Hu).
  - intros data c su ou ex Hresp.
    destruct data as [[u|] ttl]; [|discriminate].
    destruct (is_valid_url (Str.strip u)) eqn:Hv.
    + rewrite (shorten_valid _ _ _ _ Hv) in Hresp |- *.
      destruct (unique_code (draws e) (url_mappings s)) as [c'| |] eqn:Hc;
        [|discriminate..].
      destruct (unique_code_spec _ _ _ Hc) as (? & ? & _ & _ & Hnone).
      cbn [snd]. rewrite api_health_unfold.
      assert (Ha : active_urls (inserted e c' (Str.strip u) ttl s)
                   = active_urls s + 1).
      { unfold active_urls, inserted. cbn [url_mappings].
        rewrite (map_size_insert_None _ _ _ Hnone). lia. }
      assert (Ht : total_clicks (inserted e c' (Str.strip u) ttl s)
                   = total_clicks s).
      { unfold inserted.
        assert (Hsn : url_stats s !! c' = None).
        { destruct (url_stats s !! c') as [st|] eqn:Hst; [|reflexivity].
          assert (Hin : c' ∈ dom (url_stats s)) by (apply elem_of_dom; by eexists).
          rewrite <- Hk in Hin. apply elem_of_dom in Hin as [? Hin]. congruence. }
        rewrite (total_insert_fresh _ _ _ (url_mappings s) _ Hsn).
        cbn. destruct s. cbn. lia. }
      by rewrite Ha, Ht.
    + rewrite (shorten_invalid _ _ _ _ Hv) in Hresp. discriminate.
Qed.

Lemma health_follows_operations_witness :
  api_health (redirect_to_url "abc123" Sample.zero_ttl).2
  = (Ok (Json (PHealth (active_urls Sample.zero_ttl)
                 (total_clicks Sample.zero_ttl + 1)) 200),
     (redirect_to_url "abc123" Sample.zero_ttl).2).
Proof.
  apply (proj1 (proj2 (health_follows_operations (Sample.at_time 1)
                         Sample.zero_ttl ltac:(vm_compute; reflexivity)))
           "abc123" "https://temp.com").
  vm_compute. reflexivity.
Defined.

(** ** List *)

(** X4. On a store whose two dictionaries have the same keys, List
    answers 200 and changes nothing; [count] is the number of entries and
    the number the health check reports; no code is listed twice; and the
    entries are exactly the records of the store, each with its click
    count and with the host URL followed by the code as [short_url]. *)
Theorem list_urls_lists_the_store (e : env) (s : store) :
  same_keys s ->
  exists urls,
    list_urls e s = (Ok (Json (PList (Z.of_nat (length urls)) urls) 200), s)
    /\ Z.of_nat (length urls) = active_urls s
    /\ NoDup (urls.*1.*1)
    /\ (forall code short_url n,
          (code, short_url, n) ∈ urls
          <-> exists url st,
                url_mappings s !! code = Some url
                /\ url_stats s !! code = Some st
                /\ short_url = (host_url e ++ code)%string
                /\ n = clicks st).
Proof.
  intros Hk. rewrite (list_urls_same_keys e s Hk).
  set (row := fun c => (c, (host_url e ++ c)%string, clicks (stats_of s c))).
  exists (row <$> live_codes s).
  assert (Hlen : length (row <$> live_codes s) = size (url_mappings s)).
  { unfold live_codes. by rewrite !length_fmap, length_map_to_list. }
  split; [by rewrite Hlen|]. split; [unfold active_urls; by rewrite Hlen|].
  split.
  - rewrite <- !list_fmap_compose.
    assert (Hid : (fst ∘ fst ∘ row) <$> live_codes s = live_codes s).
    { generalize (live_codes s). intros l. induction l as [|c l IH]; [done|].
      rewrite fmap_cons, IH. reflexivity. }
    rewrite Hid. apply live_codes_NoDup.
  - intros code su n. rewrite list_elem_of_fmap. split.
    + intros (c & [= -> -> ->] & Hin).
      apply elem_of_live_codes in Hin as [url Hu].
      destruct (same_keys_lookup s c Hk) as [st Hst]; [by eexists|].
      exists url, st. unfold stats_of. rewrite Hst. auto.
    + intros (url & st & Hu & Hst & -> & ->). exists code. split.
      * unfold row, stats_of. by rewrite Hst.
      * apply elem_of_live_codes. by eexists.
Qed.

Lemma list_urls_lists_the_store_witness :
  exists urls,
    list_urls (Sample.at_time 1) Sample.zero_ttl
    = (Ok (Json (PList (Z.of_nat (length urls)) urls) 200), Sample.zero_ttl)
    /\ Z.of_nat (length urls) = active_urls Sample.zero_ttl
    /\ NoDup (urls.*1.*1)
    /\ (forall code short_url n,
          (code, short_url, n) ∈ urls
          <-> exists url st,
                url_mappings Sample.zero_ttl !! code = Some url
                /\ url_stats Sample.zero_ttl !! code = Some st
                /\ short_url = (host_url (Sample.at_time 1) ++ code)%string
                /\ n = clicks st).
Proof.
  apply (list_urls_lists_the_store (Sample.at_time 1) Sample.zero_ttl).
  vm_compute. reflexivity.
Defined.

Example list_example :
  (list_urls (Sample.at_time 1) Sample.zero_ttl).1
  = Ok (Json (PList 1 [("abc123", "http://localhost/abc123", 0)]) 200)
  /\ (list_urls (Sample.at_time 1) empty_store).1 = Ok (Json (PList 0 []) 200).
Proof. vm_compute. split; reflexivity. Qed.

(** ** A key without a statistics entry *)

(** X5. For a code that is a key of [url_mappings] and has no entry in
    [url_stats], the [defaultdict] makes one up: Stats answers 200 with
    no clicks, no dates and [is_active] true, and leaves the default entry
    behind; Resolve redirects and leaves an entry with one click. Either
    way the code has an entry afterwards and nothing else changes. *)
Theorem missing_stats_entry_is_created (e : env) (code url : string) (s : store) :
  url_mappings s !! code = Some url ->
  url_stats s !! code = None ->
  get_stats e code s
  = (Ok (Json (PStats code url 0 PNone PNone true) 200),
     Store (url_mappings s) (<[code := default_stats]> (url_stats s)))
  /\ redirect_to_url code s
     = (Ok (Redirect url 302),
        Store (url_mappings s) (<[code := Stats 1 PNone PNone]> (url_stats s))).
Proof.
  intros Hu Hst. split.
  - rewrite (get_stats_present _ _ _ _ Hu), stats_getitem_unfold.
    unfold stats_of. rewrite Hst. reflexivity.
  - rewrite (redirect_present _ _ _ Hu). unfold stats_of. rewrite Hst. reflexivity.
Qed.

Lemma missing_stats_entry_is_created_witness :
  get_stats (Sample.at_time 1) "abc123"
    (Store {[ "abc123" := "https://temp.com" ]} ∅)
  = (Ok (Json (PStats "abc123" "https://temp.com" 0 PNone PNone true) 200),
     Store (url_mappings (Store {[ "abc123" := "https://temp.com" ]} ∅))
       (<[ "abc123" := default_stats ]>
          (url_stats (Store {[ "abc123" := "https://temp.com" ]} ∅))))
  /\ redirect_to_url "abc123" (Store {[ "abc123" := "https://temp.com" ]} ∅)
     = (Ok (Redirect "https://temp.com" 302),
        Store (url_mappings (Store {[ "abc123" := "https://temp.com" ]} ∅))
          (<[ "abc123" := Stats 1 PNone PNone ]>
             (url_stats (Store {[ "abc123" := "https://temp.com" ]} ∅)))).
Proof.
  apply (missing_stats_entry_is_created (Sample.at_time 1) "abc123"
           "https://temp.com" (Store {[ "abc123" := "https://temp.com" ]} ∅)).
  - vm_compute. reflexivity.
  - vm_compute. reflexivity.
Defined.

(** ** More on the sweep *)

Lemma cleanup_noop (now : Z) (s : store) :
  (forall code st, url_stats s !! code = Some st ->
                   holds_str st = false /\ due now st = false) ->
  cleanup_expired_urls now s = (Ok tt, s).
Proof.
  intros H.
  assert (Hc : cleanup_expired_urls now s
               = (Ok tt, foldl pop_code s
                    (filter (fun p => due now p.2 = true)
                       (map_to_list (url_stats s))).*1)).
  { apply cleanup_completes. intros code st Hst. by apply (H code st). }
  rewrite Hc. f_equal.
  assert (Hno : forall code, swept now s code = false).
  { intros code. unfold swept.
    destruct (url_stats s !! code) as [st|] eqn:Hst; [|reflexivity].
    by apply (H code st). }
  apply store_eq; intros code;
    destruct (cleanup_result _ _ _ Hc code) as [Hm Hst];
    rewrite (Hno code) in Hm, Hst; assumption.
Qed.

Lemma due_mono (now now' : Z) (st : stats) :
  now' <= now -> due now st = false -> due now' st = false.
Proof.
  unfold due. destruct (expiry_time (expires_at st)); [|reflexivity].
  intros Hle Hd. apply Z.ltb_ge in Hd. apply Z.ltb_ge. lia.
Qed.

(** X6. A sweep that returns has removed all it would remove: sweeping
    the resulting store again, at the same time or an earlier one,
    returns and changes nothing. *)
Theorem sweep_is_idempotent (now now' : Z) (s s' : store) :
  cleanup_expired_urls now s = (Ok tt, s') ->
  now' <= now ->
  cleanup_expired_urls now' s' = (Ok tt, s').
Proof.
  intros Hc Hle. apply cleanup_noop. intros code st Hst'.
  destruct (cleanup_result _ _ _ Hc code) as [_ Hst].
  rewrite Hst' in Hst. unfold swept in Hst.
  destruct (url_stats s !! code) as [st0|] eqn:Hst0; [|discriminate].
  destruct (due now st0) eqn:Hd; [discriminate|]. injection Hst as ->.
  split; [|by eapply due_mono].
  rewrite cleanup_unfold in Hc.
  destruct (expired_codes now (map_to_list (url_stats s))) as [codes| |] eqn:He;
    [|discriminate..].
  pose proof (expired_codes_inv _ _ _ He) as Hall. rewrite Forall_forall in Hall.
  exact (Hall (code, st0) (proj2 (elem_of_map_to_list _ _ _) Hst0)).
Qed.

Lemma sweep_is_idempotent_witness :
  cleanup_expired_urls 60 (cleanup_expired_urls 100 Sample.three).2
  = (Ok tt, (cleanup_expired_urls 100 Sample.three).2).
Proof.
  apply (sweep_is_idempotent 100 60 Sample.three).
  - vm_compute. reflexivity.
  - lia.
Defined.

Lemma string_expiry_or_none (s : store) :
  (exists code st, url_stats s !! code = Some st /\ holds_str st = true)
  \/ (forall code st, url_stats s !! code = Some st -> holds_str st = false).
Proof.
  destruct (decide (Forall (fun p => holds_str p.2 = false)
                      (map_to_list (url_stats s)))) as [H|H].
  - right. intros code st Hst. rewrite Forall_forall in H.
    exact (H (code, st) (proj2 (elem_of_map_to_list _ _ _) Hst)).
  - left. apply not_Forall_Exists in H; [|intros ?; apply _].
    apply Exists_exists in H as ([code st] & Hin & Hs). unfold compose in Hs.
    exists code, st. split; [by apply elem_of_map_to_list|].
    cbn in Hs. by destruct (holds_str st).
Qed.


(** X7. The sweep raises, whatever the time, exactly when some record
    keeps its expiry as a string, and returns exactly when none does; when
    it raises, the exception is [TypeError] and the store is untouched. *)
Theorem sweep_raises_iff_string_expiry (now : Z) (s : store) :
  ((cleanup_expired_urls now s).1 = Raise TypeError
   <-> exists code st, url_stats s !! code = Some st /\ holds_str st = true)
  /\ ((cleanup_expired_urls now s).1 = Ok tt
      <-> forall code st, url_stats s !! code = Some st -> holds_str st = false)
  /\ (forall ex, (cleanup_expired_urls now s).1 = Raise ex ->
                 ex = TypeError /\ (cleanup_expired_urls now s).2 = s).
Proof.
  destruct (string_expiry_or_none s) as [(code & st & Hst & Hs)|Hall].
  - rewrite (cleanup_raises now s code st Hst Hs). cbn. split; [|split].
    + split; [by exists code, st | reflexivity].
    + split; [discriminate|]. intros H. rewrite (H code st Hst) in Hs. discriminate.
    + intros ex [= <-]. auto.
  - rewrite (cleanup_completes now s Hall). cbn. split; [|split].
    + split; [discriminate|]. intros (code & st & Hst & Hs).
      rewrite (Hall code st Hst) in Hs. discriminate.
    + split; [by intros _ | reflexivity].
    + intros ex [=].
Qed.

Lemma sweep_raises_iff_string_expiry_witness :
  (cleanup_expired_urls 0 Sample.one_hour).1 = Raise TypeError.
Proof.
  apply (sweep_raises_iff_string_expiry 0 Sample.one_hour).
  exists "abc123", (Stats 0 (PIsoStr 0) (PIsoStr Sample.hour)).
  split; vm_compute; reflexivity.
Defined.

(** ** After an Insert with a TTL *)

Lemma run_app_reqs (reqs reqs' : list (env * request)) (s : store) :
  run (reqs ++ reqs')%list s = run reqs' (run reqs s).
Proof. apply foldl_app. Qed.

Lemma run_stuck (reqs : list (env * request)) (s : store) (code : string)
    (st : stats) :
  url_stats s !! code = Some st -> holds_str st = true -> run reqs s = s.
Proof.
  intros Hst Hs. induction reqs as [|[e r] reqs IH] using rev_ind; [reflexivity|].
  rewrite run_app_reqs, IH. cbn. by rewrite (handle_raises e r s code st Hst Hs).
Qed.

(** X8. Once a request has inserted a record with a TTL that is not zero
    (answer 201), the service is stuck: after any further requests, every
    request ends in [TypeError] and the store is still the one the Insert
    left. *)
Theorem ttl_insert_breaks_service (e : env) (u : string) (h : Q) (s : store)
    (c su ou : string) (ex : pyval) :
  Qeq_bool h 0 = false ->
  (handle e (PostShorten (ShortenBody (Some u) (Some h))) s).1
  = Ok (Json (PShortened c su ou ex) 201) ->
  let s1 := (handle e (PostShorten (ShortenBody (Some u) (Some h))) s).2 in
  forall reqs e' r,
    run reqs s1 = s1 /\ handle e' r (run reqs s1) = (Raise TypeError, s1).
Proof.
  intros Hh Hresp s1 reqs e' r.
  assert (Hstuck : exists code st, url_stats s1 !! code = Some st
                                   /\ holds_str st = true).
  { unfold s1. unfold handle, bind, before_request in Hresp |- *.
    destruct (cleanup_expired_urls (clock_sweep e) s) as [[[]| |] s0];
      [|discriminate..].
    cbn [view] in Hresp |- *.
    destruct (is_valid_url (Str.strip u)) eqn:Hv.
    - rewrite (shorten_valid _ _ _ _ Hv) in Hresp |- *.
      destruct (unique_code (draws e) (url_mappings s0)) as [c'| |];
        [|discriminate..].
      cbn [snd]. exists c'. by apply inserted_holds_str.
    - rewrite (shorten_invalid _ _ _ _ Hv) in Hresp. discriminate. }
  destruct Hstuck as (code & st & Hst & Hs).
  rewrite (run_stuck reqs s1 code st Hst Hs). split; [reflexivity|].
  by apply (handle_raises e' r s1 code st).
Qed.

Lemma ttl_insert_breaks_service_witness :
  run [(Sample.at_time 1, GetUrls);
       (Sample.at_time (2 * Sample.hour), GetStats "abc123")] Sample.one_hour
  = Sample.one_hour
  /\ handle (Sample.at_time (3 * Sample.hour)) (GetCode "abc123")
       (run [(Sample.at_time 1, GetUrls);
             (Sample.at_time (2 * Sample.hour), GetStats "abc123")]
          Sample.one_hour)
     = (Raise TypeError, Sample.one_hour).
Proof.
  apply (ttl_insert_breaks_service (Sample.at_time 0) "https://temp.com" (1 # 1)%Q
           empty_store "abc123" "http://localhost/abc123" "https://temp.com"
           (PIsoStr Sample.hour)).
  - reflexivity.
  - vm_compute. reflexivity.
Defined.

(** ** What never happens on a reachable store *)

Lemma reachable_handle (e : env) (r : request) (s : store) :
  reachable s -> reachable (handle e r s).2.
Proof.
  intros [reqs ->]. exists (reqs ++ [(e, r)])%list. by rewrite run_app_reqs.
Qed.

Lemma reachable_run (reqs : list (env * request)) (s : store) :
  reachable s -> reachable (run reqs s).
Proof.
  intros [reqs0 ->]. exists (reqs0 ++ reqs)%list. by rewrite run_app_reqs.
Qed.

(** On a reachable store a request is its view, or fails in the sweep
    and leaves the store as it was. *)
Lemma reachable_handle_cases (e : env) (r : request) (s : store) :
  reachable s ->
  handle e r s = view e r s \/ handle e r s = (Raise TypeError, s).
Proof.
  intros Hr. unfold handle, bind, before_request.
  destruct (reachable_sweep_removes_nothing (clock_sweep e) s Hr) as [-> | ->];
    auto.
Qed.

(** X9. A short code, once issued, is never removed and never retargeted:
    on a reachable store, a code that maps to a URL still maps to that
    URL after any further sequence of requests, whatever their times. *)
Theorem issued_code_is_permanent (s : store) (code url : string)
    (reqs : list (env * request)) :
  reachable s ->
  url_mappings s !! code = Some url ->
  url_mappings (run reqs s) !! code = Some url.
Proof.
  intros Hr Hu. induction reqs as [|[e r] reqs IH] using rev_ind; [exact Hu|].
  rewrite run_app_reqs. cbn.
  pose proof (reachable_run reqs s Hr) as Hr'.
  destruct (reachable_handle_cases e r (run reqs s) Hr') as [-> | ->];
    [|exact IH].
  destruct (view_mappings e r (run reqs s))
    as [-> | (c & u & _ & Hnone & _ & ->)]; [exact IH|].
  rewrite lookup_insert_ne; [exact IH|]. intros ->. congruence.
Qed.

Lemma issued_code_is_permanent_witness :
  url_mappings
    (run [(Sample.at_time (2 * Sample.hour), GetCode "abc123");
          (Env (3 * Sample.hour) (3 * Sample.hour) ["abc123"; "xyz789"] "h/",
           PostShorten (ShortenBody (Some "http://b.example") None))]
       Sample.zero_ttl) !! "abc123"
  = Some "https://temp.com".
Proof.
  apply (issued_code_is_permanent Sample.zero_ttl "abc123" "https://temp.com").
  - exists [(Sample.at_time 0,
             PostShorten (Sample.temp_body (Some (0 # 1)%Q)))]. reflexivity.
  - vm_compute. reflexivity.
Defined.

(** X10. On a reachable store a request changes the click count of a
    record only by counting a redirect: the count grows by exactly one
    when the request is a Resolve of that code answered 302, and stays as
    it is otherwise; the dates of the record never change. *)
Theorem clicks_change_only_by_redirect (e : env) (r : request) (s : store)
    (code : string) (st : stats) :
  reachable s ->
  url_stats s !! code = Some st ->
  exists st',
    url_stats (handle e r s).2 !! code = Some st'
    /\ created_at st' = created_at st
    /\ expires_at st' = expires_at st
    /\ (r = GetCode code -> status (handle e r s).1 = Some 302 ->
        clicks st' = clicks st + 1)
    /\ (r <> GetCode code \/ status (handle e r s).1 <> Some 302 ->
        clicks st' = clicks st).
Proof.
  intros Hr Hst. pose proof (reachable_same_keys s Hr) as Hk.
  destruct (reachable_handle_cases e r s Hr) as [-> | ->].
  - destruct r as [data|c0|c0| |]; cbn [view].
    + (* Insert *)
      exists st. destruct data as [[u|] ttl].
      * destruct (is_valid_url (Str.strip u)) eqn:Hv.
        -- rewrite (shorten_valid _ _ _ _ Hv).
           destruct (unique_code (draws e) (url_mappings s)) as [c'| |] eqn:Hc;
             cbn [fst snd]; [|repeat split; auto; discriminate..].
           destruct (unique_code_spec _ _ _ Hc) as (? & ? & _ & _ & Hnone).
           assert (Hne : c' <> code).
           { intros ->. destruct (url_stats s !! code) eqn:Hs; [|discriminate].
             assert (Hin : code ∈ dom (url_stats s))
               by (apply elem_of_dom; by eexists).
             rewrite <- Hk in Hin. apply elem_of_dom in Hin as [? Hin].
             congruence. }
           unfold inserted. cbn [url_stats].
           rewrite lookup_insert_ne by exact Hne.
           repeat split; auto. discriminate.
        -- rewrite (shorten_invalid _ _ _ _ Hv). cbn.
           repeat split; auto. discriminate.
      * cbn. repeat split; auto. discriminate.
    + (* Resolve *)
      destruct (url_mappings s !! c0) as [url|] eqn:Hu.
      * rewrite (redirect_present _ _ _ Hu). cbn [fst snd url_stats].
        destruct (decide (c0 = code)) as [->|Hne].
        -- rewrite lookup_insert_eq. eexists. split; [reflexivity|].
           unfold stats_of. rewrite Hst. cbn. repeat split; auto.
           intros [H|H]; [by destruct H | by destruct H].
        -- rewrite lookup_insert_ne by exact Hne. exists st.
           repeat split; auto. intros [= ->]. by destruct Hne.
      * rewrite (redirect_absent _ _ Hu). cbn. exists st.
        repeat split; auto. discriminate.
    + (* Stats *)
      exists st. rewrite (get_stats_same_keys e c0 s Hk).
      repeat split; auto. discriminate.
    + (* List *)
      exists st. rewrite (list_urls_same_keys e s Hk). cbn.
      repeat split; auto. discriminate.
    + exists st. cbn. repeat split; auto. discriminate.
  - exists st. cbn. repeat split; auto. discriminate.
Qed.

Lemma clicks_change_only_by_redirect_witness :
  exists st',
    url_stats (handle (Sample.at_time 5) (GetCode "abc123") Sample.zero_ttl).2
      !! "abc123" = Some st'
    /\ created_at st' = created_at (Stats 0 (PIsoStr 0) PNone)
    /\ expires_at st' = expires_at (Stats 0 (PIsoStr 0) PNone)
    /\ (GetCode "abc123" = GetCode "abc123" ->
        status (handle (Sample.at_time 5) (GetCode "abc123") Sample.zero_ttl).1
        = Some 302 ->
        clicks st' = clicks (Stats 0 (PIsoStr 0) PNone) + 1)
    /\ (GetCode "abc123" <> GetCode "abc123"
        \/ status (handle (Sample.at_time 5) (GetCode "abc123") Sample.zero_ttl).1
           <> Some 302 ->
        clicks st' = clicks (Stats 0 (PIsoStr 0) PNone)).
Proof.
  apply (clicks_change_only_by_redirect (Sample.at_time 5) (GetCode "abc123")
           Sample.zero_ttl "abc123" (Stats 0 (PIsoStr 0) PNone)).
  - exists [(Sample.at_time 0,
             PostShorten (Sample.temp_body (Some (0 # 1)%Q)))]. reflexivity.
  - vm_compute. reflexivity.
Defined.

(** ** Insert, then Resolve, then Stats *)

Lemma no_expiry_sweep (now : Z) (s : store) :
  no_expiry s -> cleanup_expired_urls now s = (Ok tt, s).
Proof.
  intros H. apply cleanup_noop. intros code st Hst.
  unfold holds_str, due. by rewrite (H code st Hst).
Qed.

Lemma no_expiry_handle (e : env) (r : request) (s : store) :
  no_expiry s -> handle e r s = view e r s.
Proof.
  intros H. apply handle_after_sweep. apply no_expiry_sweep, H.
Qed.

(** X11. On a store without expiring records, a URL inserted without a
    TTL comes back: the Insert is answered 201 with a fresh code; the
    next request for that code is redirected to the stripped URL; the
    request for its statistics after that reports that URL, one click,
    the creation time of the Insert, no expiry and [is_active] true. *)
Theorem insert_resolve_stats (e e2 e3 : env) (u : string) (s : store) :
  no_expiry s ->
  is_valid_url (Str.strip u) = true ->
  has_free_draw e s ->
  exists c,
    url_mappings s !! c = None
    /\ handle e (PostShorten (ShortenBody (Some u) None)) s
       = (Ok (Json (PShortened c (host_url e ++ c)%string (Str.strip u) PNone) 201),
          inserted e c (Str.strip u) None s)
    /\ (handle e2 (GetCode c) (inserted e c (Str.strip u) None s)).1
       = Ok (Redirect (Str.strip u) 302)
    /\ (handle e3 (GetStats c)
          (handle e2 (GetCode c) (inserted e c (Str.strip u) None s)).2).1
       = Ok (Json (PStats c (Str.strip u) 1 (isoformat (clock e)) PNone true) 200).
Proof.
  intros Hno Hv Hfree.
  destruct (shorten_accepts e u None s Hv Hfree) as (c & _ & Hnone & _ & Heq).
  exists c. split; [exact Hnone|].
  rewrite (no_expiry_handle _ _ _ Hno). cbn [view]. split; [exact Heq|].
  set (s1 := inserted e c (Str.strip u) None s).
  assert (Hno1 : no_expiry s1).
  { intros code st Hst. unfold s1, inserted in Hst. cbn [url_stats] in Hst.
    destruct (decide (code = c)) as [->|Hne].
    - rewrite lookup_insert_eq in Hst. by injection Hst as <-.
    - rewrite lookup_insert_ne in Hst by done. by eapply Hno. }
  assert (Hu1 : url_mappings s1 !! c = Some (Str.strip u))
    by apply lookup_insert_eq.
  assert (Hst1 : url_stats s1 !! c = Some (Stats 0 (isoformat (clock e)) PNone))
    by apply lookup_insert_eq.
  rewrite (no_expiry_handle _ _ _ Hno1). cbn [view].
  rewrite (redirect_present _ _ _ Hu1). cbn [fst snd]. split; [reflexivity|].
  unfold stats_of. rewrite Hst1. cbn [from_option id clicks created_at expires_at].
  set (s2 := Store _ _).
  assert (Hno2 : no_expiry s2).
  { intros code st Hst. unfold s2 in Hst. cbn [url_stats] in Hst.
    destruct (decide (code = c)) as [->|Hne].
    - rewrite lookup_insert_eq in Hst. by injection Hst as <-.
    - rewrite lookup_insert_ne in Hst by done. by eapply Hno1. }
  rewrite (no_expiry_handle _ _ _ Hno2). cbn [view].
  assert (Hu2 : url_mappings s2 !! c = Some (Str.strip u)) by exact Hu1.
  assert (Hst2 : url_stats s2 !! c = Some (Stats (0 + 1) (isoformat (clock e)) PNone))
    by apply lookup_insert_eq.
  rewrite (get_stats_present _ _ _ _ Hu2), (stats_getitem_present _ _ _ Hst2).
  unfold stats_of. rewrite Hst2. reflexivity.
Qed.

Lemma insert_resolve_stats_witness :
  exists c,
    url_mappings empty_store !! c = None
    /\ handle (Sample.at_time 7)
         (PostShorten (ShortenBody (Some " https://example.org ") None)) empty_store
       = (Ok (Json (PShortened c (host_url (Sample.at_time 7) ++ c)%string
                      (Str.strip " https://example.org ") PNone) 201),
          inserted (Sample.at_time 7) c (Str.strip " https://example.org ") None
            empty_store)
    /\ (handle (Sample.at_time 8) (GetCode c)
          (inserted (Sample.at_time 7) c (Str.strip " https://example.org ") None
             empty_store)).1
       = Ok (Redirect (Str.strip " https://example.org ") 302)
    /\ (handle (Sample.at_time 9) (GetStats c)
          (handle (Sample.at_time 8) (GetCode c)
             (inserted (Sample.at_time 7) c (Str.strip " https://example.org ")
                None empty_store)).2).1
       = Ok (Json (PStats c (Str.strip " https://example.org ") 1
                     (isoformat (clock (Sample.at_time 7))) PNone true) 200).
Proof.
  apply (insert_resolve_stats (Sample.at_time 7) (Sample.at_time 8)
           (Sample.at_time 9) " https://example.org " empty_store).
  - intros code st Hst. cbn in Hst. by rewrite lookup_empty in Hst.
  - vm_compute. reflexivity.
  - exists "abc123". split; [left | reflexivity].
Defined.

(** ** Resolve, again and again *)

Lemma resolve_times_S (n : nat) (code : string) (s : store) :
  resolve_times (S n) code s = (redirect_to_url code (resolve_times n code s)).2.
Proof. reflexivity. Qed.

(** X12. Resolve called n times in a row on a code of the store redirects
    to the same URL each time and leaves the click count n higher; the
    dates of the record and the other records are as before. On a code
    that is not in the store it changes nothing, however often. *)
Theorem resolve_n_times (n : nat) (code : string) (s : store) :
  (forall url,
     url_mappings s !! code = Some url ->
     (redirect_to_url code (resolve_times n code s)).1 = Ok (Redirect url 302)
     /\ clicks (stats_of (resolve_times n code s) code)
        = clicks (stats_of s code) + Z.of_nat n
     /\ created_at (stats_of (resolve_times n code s) code)
        = created_at (stats_of s code)
     /\ expires_at (stats_of (resolve_times n code s) code)
        = expires_at (stats_of s code)
     /\ url_mappings (resolve_times n code s) = url_mappings s
     /\ (forall other, other <> code ->
           url_stats (resolve_times n code s) !! other = url_stats s !! other))
  /\ (url_mappings s !! code = None -> resolve_times n code s = s).
Proof.
  split.
  - intros url Hu. induction n as [|n (IH1 & IH2 & IH3 & IH4 & IH5 & IH6)].
    + change (resolve_times 0 code s) with s.
      rewrite (redirect_present _ _ _ Hu). cbn. repeat split; auto. lia.
    + rewrite resolve_times_S.
      assert (Hu' : url_mappings (resolve_times n code s) !! code = Some url)
        by (by rewrite IH5).
      rewrite (redirect_present _ _ _ Hu'). cbn [snd].
      set (s' := Store _ _).
      assert (Hu'' : url_mappings s' !! code = Some url) by exact Hu'.
      rewrite (redirect_present _ _ _ Hu''). cbn [fst].
      unfold s'. rewrite stats_of_insert. cbn [clicks created_at expires_at
                                                 url_mappings url_stats].
      repeat split; auto; try lia.
      intros other Hne. rewrite lookup_insert_ne by done. by apply IH6.
  - intros Hu. induction n as [|n IH]; [reflexivity|].
    rewrite resolve_times_S, IH. by rewrite (redirect_absent _ _ Hu).
Qed.

Lemma resolve_n_times_witness :
  (redirect_to_url "abc123" (resolve_times 50 "abc123" Sample.zero_ttl)).1
  = Ok (Redirect "https://temp.com" 302)
  /\ clicks (stats_of (resolve_times 50 "abc123" Sample.zero_ttl) "abc123")
     = clicks (stats_of Sample.zero_ttl "abc123") + Z.of_nat 50
  /\ created_at (stats_of (resolve_times 50 "abc123" Sample.zero_ttl) "abc123")
     = created_at (stats_of Sample.zero_ttl "abc123")
  /\ expires_at (stats_of (resolve_times 50 "abc123" Sample.zero_ttl) "abc123")
     = expires_at (stats_of Sample.zero_ttl "abc123")
  /\ url_mappings (resolve_times 50 "abc123" Sample.zero_ttl)
     = url_mappings Sample.zero_ttl
  /\ (forall other, other <> "abc123" ->
        url_stats (resolve_times 50 "abc123" Sample.zero_ttl) !! other
        = url_stats Sample.zero_ttl !! other).
Proof.
  apply (resolve_n_times 50 "abc123" Sample.zero_ttl).
  vm_compute. reflexivity.
Defined.

(** ** URLs that cannot be valid *)

Module UrlFacts.
Import Url.

Lemma contains_lstrip_c0 (c : ascii) (s : string) :
  contains c s = false -> contains c (lstrip_c0 s) = false.
Proof.
  induction s as [|a s IH]; [reflexivity|]. cbn [lstrip_c0 contains].
  destruct (is_c0_or_space a).
  - destruct (Ascii.eqb a c); [discriminate | exact IH].
  - cbn [contains]. auto.
Qed.

Lemma contains_remove_unsafe (c : ascii) (s : string) :
  contains c s = false -> contains c (remove_unsafe s) = false.
Proof.
  induction s as [|a s IH]; [reflexivity|]. cbn [remove_unsafe contains].
  destruct (Ascii.eqb a c) eqn:Hac; [discriminate|]. intros H.
  destruct (is_unsafe a); [by apply IH|]. cbn [contains]. rewrite Hac. by apply IH.
Qed.

Lemma contains_lstrip (c : ascii) (s : string) :
  contains c s = false -> contains c (Str.lstrip s) = false.
Proof.
  induction s as [|a s IH]; [reflexivity|]. cbn [Str.lstrip contains].
  destruct (Str.is_space a).
  - destruct (Ascii.eqb a c); [discriminate | exact IH].
  - cbn [contains]. auto.
Qed.

Lemma contains_rstrip (c : ascii) (s : string) :
  contains c s = false -> contains c (Str.rstrip s) = false.
Proof.
  induction s as [|a s IH]; [reflexivity|]. cbn [Str.rstrip contains].
  destruct (Ascii.eqb a c) eqn:Hac; [discriminate|]. intros H.
  specialize (IH H). destruct (Str.rstrip s) as [|b kept].
  - destruct (Str.is_space a); [reflexivity|]. cbn [contains]. by rewrite Hac.
  - cbn [contains] in IH |- *. by rewrite Hac.
Qed.

Lemma contains_strip (c : ascii) (s : string) :
  contains c s = false -> contains c (Str.strip s) = false.
Proof. intros H. by apply contains_rstrip, contains_lstrip. Qed.

Lemma split_colon_none (s : string) :
  contains ":" s = false -> split_colon s = None.
Proof.
  induction s as [|a s IH]; [reflexivity|]. cbn [contains split_colon].
  destruct (Ascii.eqb a ":"); [discriminate|]. intros H. by rewrite (IH H).
Qed.

(** The scheme of a parse is the one split off before the colon. *)
Lemma urlparse_scheme (u : string) (p : parse_result) :
  urlparse u = Ok p ->
  scheme p = (split_scheme (remove_unsafe (lstrip_c0 u))).1.
Proof.
  unfold urlparse. destruct (split_scheme _) as [sch rest]. cbn [fst].
  destruct rest as [|a rest]; [by intros [= <-]|].
  destruct a as [[] [] [] [] [] [] [] []]; try (by intros [= <-]).
  destruct rest as [|b rest]; [by intros [= <-]|].
  destruct b as [[] [] [] [] [] [] [] []]; try (by intros [= <-]).
  destruct (xorb _ _); [discriminate | by intros [= <-]].
Qed.

Lemma no_colon_no_scheme (u : string) :
  contains ":" u = false ->
  forall p, urlparse u = Ok p -> scheme p = EmptyString.
Proof.
  intros H p Hp. rewrite (urlparse_scheme u p Hp). unfold split_scheme.
  by rewrite split_colon_none
    by (by apply contains_remove_unsafe, contains_lstrip_c0).
Qed.

Lemma all_space_no_colon (s : string) :
  Str.all_space s = true -> contains ":" s = false.
Proof.
  induction s as [|a s IH]; [reflexivity|]. cbn [Str.all_space contains].
  intros [Ha Hs]%andb_true_iff.
  destruct (Ascii.eqb_spec a ":") as [->|_]; [discriminate Ha | by apply IH].
Qed.

End UrlFacts.

Lemma no_colon_invalid (u : string) :
  Url.contains ":" u = false -> is_valid_url u = false.
Proof.
  intros H. unfold is_valid_url.
  destruct (Url.urlparse u) as [p|ex|] eqn:Hp; [|by destruct ex | reflexivity].
  by rewrite (UrlFacts.no_colon_no_scheme u H p Hp).
Qed.

(** X13. A submitted URL without a colon has no scheme and is rejected:
    POST /api/shorten answers 400 "Invalid URL" and leaves the store as it
    is. So is a URL that is empty or all white space. *)
Theorem url_without_colon_rejected (e : env) (u : string) (ttl : option Q)
    (s : store) :
  (Url.contains ":" u = false ->
   shorten_url e (ShortenBody (Some u) ttl) s = (Ok invalid_url, s))
  /\ (Str.all_space u = true ->
      shorten_url e (ShortenBody (Some u) ttl) s = (Ok invalid_url, s)).
Proof.
  assert (H : Url.contains ":" u = false ->
              shorten_url e (ShortenBody (Some u) ttl) s = (Ok invalid_url, s)).
  { intros Hc. apply shorten_invalid, no_colon_invalid.
    by apply UrlFacts.contains_strip. }
  split; [exact H|]. intros Hs. by apply H, UrlFacts.all_space_no_colon.
Qed.

Lemma url_without_colon_rejected_witness :
  shorten_url (Sample.at_time 0) (ShortenBody (Some "invalid-url") None) empty_store
  = (Ok invalid_url, empty_store)
  /\ shorten_url (Sample.at_time 0) (ShortenBody (Some "   ") None) empty_store
     = (Ok invalid_url, empty_store).
Proof.
  split.
  - apply (proj1 (url_without_colon_rejected (Sample.at_time 0) "invalid-url"
                    None empty_store)). reflexivity.
  - apply (proj2 (url_without_colon_rejected (Sample.at_time 0) "   " None
                    empty_store)). reflexivity.
Defined.

(** ** White space around the submitted URL *)

Lemma lstrip_fixed (s : string) :
  (forall a, Str.first_char s = Some a -> Str.is_space a = false) ->
  Str.lstrip s = s.
Proof.
  destruct s as [|a s]; [reflexivity|]. cbn. intros H.
  by rewrite (H a eq_refl).
Qed.

Lemma rstrip_idempotent (s : string) :
  Str.rstrip (Str.rstrip s) = Str.rstrip s.
Proof.
  induction s as [|a s IH]; [reflexivity|]. cbn [Str.rstrip].
  destruct (Str.rstrip s) as [|b kept] eqn:Hk.
  - destruct (Str.is_space a) eqn:Ha; [reflexivity|]. cbn. by rewrite Ha.
  - cbn [Str.rstrip] in IH |- *. by rewrite IH.
Qed.

Lemma strip_idempotent (s : string) : Str.strip (Str.strip s) = Str.strip s.
Proof.
  unfold Str.strip at 1. rewrite lstrip_fixed by apply StrFacts.strip_first.
  apply rstrip_idempotent.
Qed.

(** X14. White space around the submitted URL makes no difference:
    stripping is idempotent, and Insert of a URL and Insert of the same
    URL already stripped give the same answer and the same store. *)
Theorem surrounding_space_is_ignored (e : env) (u : string) (ttl : option Q)
    (s : store) :
  Str.strip (Str.strip u) = Str.strip u
  /\ shorten_url e (ShortenBody (Some u) ttl) s
     = shorten_url e (ShortenBody (Some (Str.strip u)) ttl) s.
Proof.
  split; [apply strip_idempotent|].
  destruct (is_valid_url (Str.strip u)) eqn:Hv.
  - rewrite (shorten_valid e u ttl s Hv).
    rewrite (shorten_valid e (Str.strip u) ttl s)
      by (by rewrite strip_idempotent).
    by rewrite strip_idempotent.
  - rewrite (shorten_invalid e u ttl s Hv).
    by rewrite (shorten_invalid e (Str.strip u) ttl s)
      by (by rewrite strip_idempotent).
Qed.

(** ** The lock *)

(** X15. While requests for a code of the store whose record has no
    expiry run at once, in whatever order their steps are taken, at most
    one thread is inside a [with lock:] block, that thread is the holder
    of the lock, and the record of the code stays in both dictionaries
    with its URL and without expiry. *)
Theorem lock_is_exclusive (target url : string) (s : store) (st : stats)
    (clocks : list Z) (schedule : list nat) :
  url_mappings s !! target = Some url ->
  url_stats s !! target = Some st ->
  expires_at st = PNone ->
  let sys := Concurrent.run_schedule target schedule (Concurrent.start s clocks) in
  (forall i j p q,
     Concurrent.threads sys !! i = Some p -> Concurrent.holds_lock p = true ->
     Concurrent.threads sys !! j = Some q -> Concurrent.holds_lock q = true ->
     i = j /\ Concurrent.lock sys = Some i)
  /\ url_mappings (Concurrent.shared sys) !! target = Some url
  /\ exists st', url_stats (Concurrent.shared sys) !! target = Some st'
                 /\ expires_at st' = PNone
                 /\ clicks st <= clicks st'.
Proof.
  intros Hu Hst Hex sys.
  pose proof (ConcurrentFacts.start_inv target url (clicks st) s st clocks
                Hu Hst Hex eq_refl) as H0.
  pose proof (ConcurrentFacts.run_schedule_inv target url (clicks st) schedule
                _ H0) as HI.
  fold sys in HI. split; [|split].
  - intros i j p q Hi Hp Hj Hq. split.
    + symmetry. by eapply (ConcurrentFacts.lock_exclusive target url (clicks st) sys).
    + by eapply (Concurrent.inv_lock HI).
  - exact (Concurrent.inv_url HI).
  - destruct (Concurrent.inv_stats HI) as (st' & Hst' & Hex' & Hcl).
    exists st'. repeat split; auto.
    rewrite Hcl. unfold Concurrent.count_if. lia.
Qed.

Lemma lock_is_exclusive_witness :
  let sys :=
    Concurrent.run_schedule "abc123" (Sample.interleaved 6)
      (Concurrent.start Sample.zero_ttl [1; 2; 3]) in
  (forall i j p q,
     Concurrent.threads sys !! i = Some p -> Concurrent.holds_lock p = true ->
     Concurrent.threads sys !! j = Some q -> Concurrent.holds_lock q = true ->
     i = j /\ Concurrent.lock sys = Some i)
  /\ url_mappings (Concurrent.shared sys) !! "abc123" = Some "https://temp.com"
  /\ exists st', url_stats (Concurrent.shared sys) !! "abc123" = Some st'
                 /\ expires_at st' = PNone
                 /\ clicks (Stats 0 (PIsoStr 0) PNone) <= clicks st'.
Proof.
  apply (lock_is_exclusive "abc123" "https://temp.com" Sample.zero_ttl
           (Stats 0 (PIsoStr 0) PNone) [1; 2; 3] (Sample.interleaved 6)).
  - vm_compute. reflexivity.
  - vm_compute. reflexivity.
  - reflexivity.
Defined.

(** ** One thread alone *)

(** X16. A thread that moves alone from the start of its request for a
    code, the lock being free, and whatever the other threads are doing
    while they stand still, ends with the answer and the store of the
    sequential request, and leaves the lock free. *)
Theorem lone_thread_is_sequential (target : string) (i : nat)
    (others : list Concurrent.pc) (e : env) (s : store) :
  (i < length others)%nat ->
  exists schedule,
    Forall (fun j => j = i) schedule
    /\ Concurrent.run_schedule target schedule
         (Concurrent.System s None
            (<[i := Concurrent.Scan (clock_sweep e)]> others))
       = Concurrent.System (handle e (GetCode target) s).2 None
           (<[i := Concurrent.Done (handle e (GetCode target) s).1]> others).
Proof. intros Hi. by apply solo_run_is_handle. Qed.

Lemma lone_thread_is_sequential_witness :
  exists schedule,
    Forall (fun j => j = 1%nat) schedule
    /\ Concurrent.run_schedule "abc123" schedule
         (Concurrent.System Sample.zero_ttl None
            (<[1%nat := Concurrent.Scan (clock_sweep (Sample.at_time 4))]>
               [Concurrent.Done Spin; Concurrent.Scan 4; Concurrent.Return]))
       = Concurrent.System
           (handle (Sample.at_time 4) (GetCode "abc123") Sample.zero_ttl).2 None
           (<[1%nat := Concurrent.Done
                         (handle (Sample.at_time 4) (GetCode "abc123")
                            Sample.zero_ttl).1]>
              [Concurrent.Done Spin; Concurrent.Scan 4; Concurrent.Return]).
Proof.
  apply (lone_thread_is_sequential "abc123" 1
           [Concurrent.Done Spin; Concurrent.Scan 4; Concurrent.Return]).
  cbn. lia.
Defined.

(** ** The outcomes of a request *)




(** ** URLs that are valid *)

Module HostFacts.
Import Url.







End HostFacts.










(** ** Insert with a TTL of whole hours *)



